(** * The CeLux encode pipeline: [celux::Encoder]

    A shallow embedding of [src/CeLux/backends/Encoder.cpp].  The encoder
    object is a record of its members; the FFmpeg libraries, the pixel
    converter and the error stream are the outside world.  Every call into
    the outside world consumes the next entry of a finite script of return
    values and is recorded, in program order, as an event.  When the script
    is exhausted the world is quiescent: the codec has no packet ready
    ([AVERROR(EAGAIN)]) and every other call succeeds.

    Methods are computations in a small monad that threads the encoder
    and the script, accumulates the events, and distinguishes normal
    return, a C++ exception, and undefined behaviour (a null member being
    passed to the library or dereferenced).

    The reader of [src/CeLux/python/VideoReader.cpp] is embedded in the
    same way, in module [VideoReader]; its properties are in module
    [ReaderFacts]. *)

From Stdlib Require Import ZArith List String Bool Lia RelationClasses.
Import ListNotations.
Local Open Scope string_scope.
Local Open Scope list_scope.
Local Open Scope Z_scope.

(** * The Python-facing reader: [VideoReader]

    [src/CeLux/python/VideoReader.cpp].  The decoder, the converter, the
    factory, torch and the error stream are the outside world, scripted as
    for the encoder.  The interpreter lock is not modelled. *)

Module VideoReader.

(** [int] arithmetic, two's complement. *)
Definition wrap32 (z : Z) : Z := (z + 2^31) mod 2^32 - 2^31.

Inductive Backend := CPU | CUDA.

Inductive DataType := UINT8 | FLOAT32 | FLOAT16.

(** A tensor: its number of elements, its device and the frame it
    holds. *)
Record Tensor := mkTensor {
  numel : Z;
  device : Backend;
  payload : Z
}.

(** The two tensors a reader owns; a [torch::Tensor] returned by value
    shares the storage of the member it was copied from. *)
Inductive TensorRef := RefRGB | RefCpu.

Record Properties := mkProperties {
  width : Z;
  height : Z;
  totalFrames : Z
}.

(** The argument of [seek]: a time in seconds; [FrameTime n] is
    [static_cast<double>(n) / properties.fps]. *)
Inductive Timestamp :=
| Seconds0
| FrameTime (frame_number : Z).

Record Reader := mkReader {
  decoder : bool;
  convert : bool;
  currentIndex : Z;
  start_frame : Z;
  end_frame : Z;
  torchDevice : Backend;
  properties : Properties;
  RGBTensor : Tensor;
  cpuTensor : Tensor
}.

Definition set_decoder (v : bool) (rd : Reader) : Reader :=
  mkReader v (convert rd) (currentIndex rd) (start_frame rd) (end_frame rd)
           (torchDevice rd) (properties rd) (RGBTensor rd) (cpuTensor rd).

Definition set_convert (v : bool) (rd : Reader) : Reader :=
  mkReader (decoder rd) v (currentIndex rd) (start_frame rd) (end_frame rd)
           (torchDevice rd) (properties rd) (RGBTensor rd) (cpuTensor rd).

Definition set_currentIndex (v : Z) (rd : Reader) : Reader :=
  mkReader (decoder rd) (convert rd) v (start_frame rd) (end_frame rd)
           (torchDevice rd) (properties rd) (RGBTensor rd) (cpuTensor rd).

Definition set_range (s e : Z) (rd : Reader) : Reader :=
  mkReader (decoder rd) (convert rd) (currentIndex rd) s e
           (torchDevice rd) (properties rd) (RGBTensor rd) (cpuTensor rd).

Definition set_torchDevice (v : Backend) (rd : Reader) : Reader :=
  mkReader (decoder rd) (convert rd) (currentIndex rd) (start_frame rd)
           (end_frame rd) v (properties rd) (RGBTensor rd) (cpuTensor rd).

Definition set_properties (v : Properties) (rd : Reader) : Reader :=
  mkReader (decoder rd) (convert rd) (currentIndex rd) (start_frame rd)
           (end_frame rd) (torchDevice rd) v (RGBTensor rd) (cpuTensor rd).

Definition set_RGBTensor (v : Tensor) (rd : Reader) : Reader :=
  mkReader (decoder rd) (convert rd) (currentIndex rd) (start_frame rd)
           (end_frame rd) (torchDevice rd) (properties rd) v (cpuTensor rd).

Definition set_cpuTensor (v : Tensor) (rd : Reader) : Reader :=
  mkReader (decoder rd) (convert rd) (currentIndex rd) (start_frame rd)
           (end_frame rd) (torchDevice rd) (properties rd) (RGBTensor rd) v.

(** The tensor behind a reference. *)
Definition deref (rd : Reader) (t : TensorRef) : Tensor :=
  match t with
  | RefRGB => RGBTensor rd
  | RefCpu => cpuTensor rd
  end.

Inductive pyexn :=
| StopIteration
| RuntimeError (msg : string)
| InvalidArgument (msg : string)
| LibraryError (msg : string).

Definition what (x : pyexn) : string :=
  match x with
  | StopIteration => ""
  | RuntimeError m => m
  | InvalidArgument m => m
  | LibraryError m => m
  end.

Inductive REvent :=
| EvCudaAvailable (ret : Z)
| EvCudaDeviceCount (ret : Z)
| EvCreateConverter (b : Backend) (d : DataType) (ret : Z)
| EvCreateDecoder (b : Backend) (path : string) (ret : Z)
| EvGetVideoProperties (field : string) (value : Z)
| EvTorchEmpty (h w : Z) (d : DataType) (dev : Backend) (ret : Z)
| EvDecodeNextFrame (ret : Z)
| EvFrameWritten (frame : Z)
| EvCopy
| EvSeek (t : Timestamp) (ret : Z)
| EvSynchronize
| EvDecoderClose
| EvCerr (msg : string).

Inductive outcome (A : Type) :=
| Ret (a : A)
| Raise (x : pyexn)
| Undef.

Arguments Ret {A} a.
Arguments Raise {A} x.
Arguments Undef {A}.

Record ROut (A : Type) := mkROut {
  r_res : outcome A;
  r_rd : Reader;
  r_rest : list Z;
  r_evs : list REvent
}.

Arguments mkROut {A}.
Arguments r_res {A}.
Arguments r_rd {A}.
Arguments r_rest {A}.
Arguments r_evs {A}.

Definition R (A : Type) : Type := Reader -> list Z -> ROut A.

Definition later {A} (evs : list REvent) (o : ROut A) : ROut A :=
  match o with
  | mkROut res rd rs evs' => mkROut res rd rs (evs ++ evs')
  end.

Definition ret {A} (a : A) : R A := fun rd rs => mkROut (Ret a) rd rs [].

Definition raise {A} (x : pyexn) : R A := fun rd rs => mkROut (Raise x) rd rs [].

Definition undef {A} : R A := fun rd rs => mkROut Undef rd rs [].

Definition bind {A B} (m : R A) (k : A -> R B) : R B := fun rd rs =>
  match m rd rs with
  | mkROut (Ret a) rd1 rs1 evs1 => later evs1 (k a rd1 rs1)
  | mkROut (Raise x) rd1 rs1 evs1 => mkROut (Raise x) rd1 rs1 evs1
  | mkROut Undef rd1 rs1 evs1 => mkROut Undef rd1 rs1 evs1
  end.

Definition gets {A} (f : Reader -> A) : R A := fun rd rs => mkROut (Ret (f rd)) rd rs [].

Definition modify (f : Reader -> Reader) : R unit :=
  fun rd rs => mkROut (Ret tt) (f rd) rs [].

Definition emit (ev : REvent) : R unit := fun rd rs => mkROut (Ret tt) rd rs [ev].

Definition ext (dflt : Z) (ev : Z -> REvent) : R Z := fun rd rs =>
  match rs with
  | [] => mkROut (Ret dflt) rd [] [ev dflt]
  | r :: rs' => mkROut (Ret r) rd rs' [ev r]
  end.

(** A library call that raises when the world answers a negative value. *)
Definition call (ev : Z -> REvent) : R Z := fun rd rs =>
  match ext 0 ev rd rs with
  | mkROut (Ret r) rd1 rs1 evs1 =>
      if r <? 0 then mkROut (Raise (LibraryError "library call failed")) rd1 rs1 evs1
      else mkROut (Ret r) rd1 rs1 evs1
  | o => o
  end.

Declare Scope reader_scope.
Delimit Scope reader_scope with reader.
Notation "x <- m ;; k" := (bind m (fun x => k))
  (at level 61, m at next level, right associativity) : reader_scope.
Notation "m ;; k" := (bind m (fun _ => k))
  (at level 61, right associativity) : reader_scope.
Local Open Scope reader_scope.

(** The [catch] clause of the constructor: log and re-throw. *)
Definition logged {A} (m : R A) : R A := fun rd rs =>
  match m rd rs with
  | mkROut (Raise x) rd1 rs1 evs1 =>
      mkROut (Raise x) rd1 rs1
             (evs1 ++ [EvCerr ("Exception in VideoReader constructor: "
                               ++ what x)%string])
  | o => o
  end.

(** The members as the initializer list leaves them. *)
Definition initial : Reader :=
  mkReader false false 0 0 (-1) CPU (mkProperties 0 0 0)
           (mkTensor 0 CPU 0) (mkTensor 0 CPU 0).

(** [VideoReader::VideoReader].  [Factory::createDecoder] is taken to
    receive the converter by value, as the encoder's constructor does, so
    that [std::move(convert)] leaves the member null.  The script supplies
    the three fields of [getVideoProperties()] that the reader uses. *)
Definition VideoReader_ctor (filePath device_ dataType : string) : R unit :=
  modify (fun _ => initial) ;;
  logged
    (backend <-
       (if String.eqb device_ "cuda" then
          a <- ext 1 EvCudaAvailable ;;
          if a =? 0
          then raise (RuntimeError
                        "CUDA is not available. Please install a CUDA-enabled version of celux.")
          else
            n <- ext 1 EvCudaDeviceCount ;;
            if n =? 0
            then raise (RuntimeError
                          "No CUDA devices found. Please check your CUDA installation.")
            else modify (set_torchDevice CUDA) ;; ret CUDA
        else if String.eqb device_ "cpu" then
          modify (set_torchDevice CPU) ;; ret CPU
        else raise (InvalidArgument ("Unsupported device: " ++ device_)%string)) ;;
     dtype <-
       (if String.eqb dataType "uint8" then ret UINT8
        else if String.eqb dataType "float32" then ret FLOAT32
        else if String.eqb dataType "float16" then ret FLOAT16
        else raise (InvalidArgument ("Unsupported dataType: " ++ dataType)%string)) ;;
     call (EvCreateConverter backend dtype) ;;
     modify (set_convert true) ;;
     call (EvCreateDecoder backend filePath) ;;
     modify (set_convert false) ;;
     modify (set_decoder true) ;;
     w <- ext 0 (EvGetVideoProperties "width") ;;
     h <- ext 0 (EvGetVideoProperties "height") ;;
     t <- ext 0 (EvGetVideoProperties "totalFrames") ;;
     modify (set_properties (mkProperties w h t)) ;;
     match backend with
     | CUDA =>
         call (EvTorchEmpty h w dtype CUDA) ;;
         modify (set_RGBTensor (mkTensor (h * w * 3) CUDA 0)) ;;
         call (EvTorchEmpty h w dtype CUDA) ;;
         modify (set_cpuTensor (mkTensor (h * w * 3) CUDA 0))
     | CPU =>
         call (EvTorchEmpty h w dtype CPU) ;;
         modify (set_cpuTensor (mkTensor (h * w * 3) CPU 0)) ;;
         call (EvTorchEmpty h w dtype CPU) ;;
         modify (set_RGBTensor (mkTensor (h * w * 3) CPU 0))
     end).

(** [VideoReader::setRange]. *)
Definition setRange (start end_ : Z) : R unit :=
  total <- gets (fun rd => totalFrames (properties rd)) ;;
  let start1 := if start <? 0 then wrap32 (total + start) else start in
  let end1 := if end_ <? 0 then wrap32 (total + end_) else end_ in
  if (start1 <? 0) || (end1 <? 0)
  then raise (RuntimeError "Frame indices out of range after adjustment.")
  else if end1 <=? start1
  then raise (RuntimeError
                "end_frame must be greater than start_frame after adjustment.")
  else modify (set_range start1 (wrap32 (end1 - 1))).

(** [VideoReader::close]. *)
Definition close : R unit :=
  c <- gets convert ;;
  (if c then emit EvSynchronize ;; modify (set_convert false) else ret tt) ;;
  d <- gets decoder ;;
  if d then emit EvDecoderClose ;; modify (set_decoder false) else ret tt.

(** [VideoReader::~VideoReader] and [VideoReader::exit]. *)
Definition destroy : R unit := close.

Definition exit : R unit := close.

(** [VideoReader::enter]. *)
Definition enter : R unit := ret tt.

(** [VideoReader::readFrame]: the decoder fills [RGBTensor], which is
    copied into [cpuTensor]; the tensor returned is [cpuTensor] itself.
    [EvFrameWritten] is the frame the decoder left in the buffer. *)
Definition readFrame : R TensorRef :=
  d <- gets decoder ;;
  if negb d then undef
  else
    result <- ext 0 EvDecodeNextFrame ;;
    if result =? 1 then
      p <- ext 0 EvFrameWritten ;;
      modify (fun rd => set_RGBTensor (mkTensor (numel (RGBTensor rd))
                                                (device (RGBTensor rd)) p) rd) ;;
      emit EvCopy ;;
      modify (fun rd => set_cpuTensor (mkTensor (numel (cpuTensor rd))
                                                (device (cpuTensor rd))
                                                (payload (RGBTensor rd))) rd) ;;
      ret RefCpu
    else if result =? 0 then raise StopIteration
    else raise (RuntimeError "Failed to decode the next frame.").

(** [VideoReader::seek]. *)
Definition seek (timestamp : Timestamp) : R bool :=
  d <- gets decoder ;;
  if negb d then undef
  else
    r <- ext 1 (EvSeek timestamp) ;;
    ret (negb (r =? 0)).

(** [VideoReader::reset]. *)
Definition reset : R unit :=
  seek Seconds0 ;;
  modify (set_currentIndex 0).

(** [VideoReader::seekToFrame]. *)
Definition seekToFrame (frame_number : Z) : R bool :=
  total <- gets (fun rd => totalFrames (properties rd)) ;;
  if (frame_number <? 0) || (total <=? frame_number) then ret false
  else seek (FrameTime frame_number).

(** [VideoReader::iter]. *)
Definition iter : R unit :=
  s <- gets start_frame ;;
  modify (set_currentIndex s) ;;
  seekToFrame s ;;
  ret tt.

(** [VideoReader::next]. *)
Definition next : R TensorRef :=
  ef <- gets end_frame ;;
  ci <- gets currentIndex ;;
  if (0 <=? ef) && (ef <? ci) then raise StopIteration
  else
    frame <- readFrame ;;
    n <- gets (fun rd => numel (deref rd frame)) ;;
    if n =? 0 then raise StopIteration
    else
      modify (fun rd => set_currentIndex (wrap32 (currentIndex rd + 1)) rd) ;;
      ret frame.

(** [VideoReader::length]. *)
Definition length (rd : Reader) : Z := totalFrames (properties rd).

(** [VideoReader::sync]. *)
Definition sync : R unit :=
  c <- gets convert ;;
  if c then emit EvSynchronize else ret tt.

(** The caller's loop [for frame in reader]: [n] calls of [next], stopping
    at the first that does not return; the result counts the frames. *)
Fixpoint take (n : nat) : R nat :=
  match n with
  | O => ret O
  | S n' =>
      fun rd rs =>
        match next rd rs with
        | mkROut (Ret _) rd1 rs1 evs1 =>
            later evs1 ((k <- take n' ;; ret (S k)) rd1 rs1)
        | mkROut _ rd1 rs1 evs1 => mkROut (Ret O) rd1 rs1 evs1
        end
  end.

Definition is_decode (ev : REvent) : bool :=
  match ev with EvDecodeNextFrame _ => true | _ => false end.

Definition is_seek (ev : REvent) : bool :=
  match ev with EvSeek _ _ => true | _ => false end.

Definition is_synchronize (ev : REvent) : bool :=
  match ev with EvSynchronize => true | _ => false end.

(** Events by which the constructor creates something. *)
Definition is_creation (ev : REvent) : bool :=
  match ev with
  | EvCreateConverter _ _ _ | EvCreateDecoder _ _ _ | EvTorchEmpty _ _ _ _ _ => true
  | _ => false
  end.

Definition in_int32 (z : Z) : Prop := - 2^31 <= z < 2^31.

(** The reader a returning constructor leaves. *)
Definition constructed (o : ROut unit) : Prop :=
  r_res o = Ret tt ->
  decoder (r_rd o) = true
  /\ currentIndex (r_rd o) = 0
  /\ start_frame (r_rd o) = 0
  /\ end_frame (r_rd o) = -1
  /\ device (RGBTensor (r_rd o)) = torchDevice (r_rd o)
  /\ device (cpuTensor (r_rd o)) = torchDevice (r_rd o)
  /\ numel (RGBTensor (r_rd o))
     = height (properties (r_rd o)) * width (properties (r_rd o)) * 3
  /\ numel (cpuTensor (r_rd o))
     = height (properties (r_rd o)) * width (properties (r_rd o)) * 3
  /\ existsb (fun ev => match ev with EvCerr _ => true | _ => false end)
             (r_evs o) = false.

(** A reader on a video of 100 frames of 4 by 2 pixels. *)
Definition sample : Reader :=
  mkReader true false 0 0 (-1) CPU (mkProperties 4 2 100)
           (mkTensor 24 CPU 0) (mkTensor 24 CPU 0).

End VideoReader.

(** * The encoder: [celux::Encoder] *)

(** ** Library constants (libavutil/error.h, libavformat/avformat.h) *)

(** [AVERROR(EAGAIN)], with [EAGAIN = 11]. *)
Definition AVERROR_EAGAIN : Z := -11.

(** [AVERROR_EOF = FFERRTAG('E','O','F',' ')]. *)
Definition AVERROR_EOF : Z := - (69 + 79 * 2^8 + 70 * 2^16 + 32 * 2^24).

Definition AVFMT_NOFILE : Z := 1.
Definition FF_THREAD_FRAME : Z := 1.
Definition FF_THREAD_SLICE : Z := 2.

(** [int64_t] arithmetic, two's complement. *)
Definition wrap64 (z : Z) : Z := (z + 2^63) mod 2^64 - 2^63.

(** [static_cast<unsigned int>]. *)
Definition to_uint32 (z : Z) : Z := z mod 2^32.

(** ** Data model *)

Record AVRational := mkRational { num : Z; den : Z }.

Record VideoProperties := mkProps {
  width : Z;
  height : Z;
  fps : Z;  (* the value of [static_cast<int>(props.fps)] *)
  pixelFormat : Z;
  codecName : string
}.

Record AVFormatContext := mkFormatCtx {
  fmt_handle : Z;
  pb_open : bool
}.

Record AVCodecContext := mkCodecCtx {
  cc_handle : Z;
  cc_width : Z;
  cc_height : Z;
  time_base : AVRational;
  framerate : AVRational;
  gop_size : Z;
  max_b_frames : Z;
  pix_fmt : Z;
  thread_count : Z;
  thread_type : Z;
  cc_opened : bool
}.

Record AVStream := mkStream {
  st_handle : Z;
  index : Z;
  st_time_base : AVRational;
  codecpar_set : bool
}.

(** The reusable packet: [pkt_ref] tells whether it holds a reference to
    codec-owned payload. *)
Record AVPacket := mkPacket {
  pkt_ref : bool;
  stream_index : Z
}.

Record Frame := mkFrame {
  frame_data : Z;
  frame_pts : Z
}.

(** The members of [celux::Encoder].  A smart or raw pointer is an
    [option]; [None] is the null pointer. *)
Record Encoder := mkEncoder {
  converter : bool;
  formatCtx : option AVFormatContext;
  codecCtx : option AVCodecContext;
  hwDeviceCtx : option Z;
  hwFramesCtx : option Z;
  stream : option AVStream;
  packet : option AVPacket;
  properties : option VideoProperties;
  pts : Z;
  frame : Frame
}.

Definition set_formatCtx (v : option AVFormatContext) (e : Encoder) : Encoder :=
  mkEncoder (converter e) v (codecCtx e) (hwDeviceCtx e) (hwFramesCtx e)
            (stream e) (packet e) (properties e) (pts e) (frame e).

Definition set_codecCtx (v : option AVCodecContext) (e : Encoder) : Encoder :=
  mkEncoder (converter e) (formatCtx e) v (hwDeviceCtx e) (hwFramesCtx e)
            (stream e) (packet e) (properties e) (pts e) (frame e).

Definition set_hwDeviceCtx (v : option Z) (e : Encoder) : Encoder :=
  mkEncoder (converter e) (formatCtx e) (codecCtx e) v (hwFramesCtx e)
            (stream e) (packet e) (properties e) (pts e) (frame e).

Definition set_hwFramesCtx (v : option Z) (e : Encoder) : Encoder :=
  mkEncoder (converter e) (formatCtx e) (codecCtx e) (hwDeviceCtx e) v
            (stream e) (packet e) (properties e) (pts e) (frame e).

Definition set_stream (v : option AVStream) (e : Encoder) : Encoder :=
  mkEncoder (converter e) (formatCtx e) (codecCtx e) (hwDeviceCtx e)
            (hwFramesCtx e) v (packet e) (properties e) (pts e) (frame e).

Definition set_packet (v : option AVPacket) (e : Encoder) : Encoder :=
  mkEncoder (converter e) (formatCtx e) (codecCtx e) (hwDeviceCtx e)
            (hwFramesCtx e) (stream e) v (properties e) (pts e) (frame e).

Definition set_properties (v : option VideoProperties) (e : Encoder) : Encoder :=
  mkEncoder (converter e) (formatCtx e) (codecCtx e) (hwDeviceCtx e)
            (hwFramesCtx e) (stream e) (packet e) v (pts e) (frame e).

Definition set_pts (v : Z) (e : Encoder) : Encoder :=
  mkEncoder (converter e) (formatCtx e) (codecCtx e) (hwDeviceCtx e)
            (hwFramesCtx e) (stream e) (packet e) (properties e) v (frame e).

Definition set_frame (v : Frame) (e : Encoder) : Encoder :=
  mkEncoder (converter e) (formatCtx e) (codecCtx e) (hwDeviceCtx e)
            (hwFramesCtx e) (stream e) (packet e) (properties e) (pts e) v.

(** ** The outside world *)

(** One event per call that leaves the encoder, with the value the world
    answered.  [EvSendFrame None] is the end-of-input (flush) submission. *)
Inductive Event :=
| EvPacketAlloc (ret : Z)
| EvConvert (buffer : Z) (ret : Z)
| EvSendFrame (f : option Frame) (ret : Z)
| EvReceivePacket (ret : Z)
| EvRescaleTs (src dst : AVRational)
| EvWriteFrame (pkt : AVPacket) (ret : Z)
| EvPacketUnref
| EvWriteTrailer (ret : Z)
| EvPacketFree
| EvFreeCodecCtx
| EvFreeFormatCtx
| EvFreeHwDeviceCtx
| EvFreeHwFramesCtx
| EvAllocOutputContext (path : string) (ret : Z)
| EvOutputFormatFlags (ret : Z)
| EvAvioOpen (path : string) (ret : Z)
| EvFindEncoder (name : string) (ret : Z)
| EvAllocCodecContext (ret : Z)
| EvHardwareConcurrency (ret : Z)
| EvCodecOpen (ret : Z)
| EvNewStream (ret : Z)
| EvParametersFromContext (ret : Z)
| EvWriteHeader (ret : Z)
| EvCerr (msg : string).

(** ** Exceptions and the method monad *)

(** [CxException] is the project's exception type; [StdException] stands
    for any other exception derived from [std::exception] (what a converter
    raises).  Both are caught by [catch (const std::exception&)]. *)
Inductive exn :=
| CxException (msg : string)
| StdException (msg : string).

Definition what (x : exn) : string :=
  match x with CxException m => m | StdException m => m end.

Inductive result (A : Type) :=
| Ok (a : A)           (* the call returned *)
| Throw (x : exn)      (* an exception leaves the call *)
| Undefined            (* a null pointer was used: no defined behaviour *)
| OutOfFuel.           (* the loop bound of the model was hit *)

Arguments Ok {A} a.
Arguments Throw {A} x.
Arguments Undefined {A}.
Arguments OutOfFuel {A}.

Record Out (A : Type) := mkOut {
  o_res : result A;
  o_enc : Encoder;
  o_rest : list Z;
  o_evs : list Event
}.

Arguments mkOut {A}.
Arguments o_res {A}.
Arguments o_enc {A}.
Arguments o_rest {A}.
Arguments o_evs {A}.

Definition M (A : Type) : Type := Encoder -> list Z -> Out A.

Definition ret {A} (a : A) : M A := fun e rs => mkOut (Ok a) e rs [].

Definition throw {A} (x : exn) : M A := fun e rs => mkOut (Throw x) e rs [].

Definition undefined {A} : M A := fun e rs => mkOut Undefined e rs [].

Definition out_of_fuel {A} : M A := fun e rs => mkOut OutOfFuel e rs [].

(** [o] with the events [evs] emitted before it. *)
Definition after {A} (evs : list Event) (o : Out A) : Out A :=
  match o with
  | mkOut res e rs evs' => mkOut res e rs (evs ++ evs')
  end.

Definition bind {A B} (m : M A) (k : A -> M B) : M B := fun e rs =>
  match m e rs with
  | mkOut (Ok a) e1 rs1 evs1 => after evs1 (k a e1 rs1)
  | mkOut (Throw x) e1 rs1 evs1 => mkOut (Throw x) e1 rs1 evs1
  | mkOut Undefined e1 rs1 evs1 => mkOut Undefined e1 rs1 evs1
  | mkOut OutOfFuel e1 rs1 evs1 => mkOut OutOfFuel e1 rs1 evs1
  end.

(** [try { m } catch (const std::exception& x) { h x }]. *)
Definition try_catch {A} (m : M A) (h : exn -> M A) : M A := fun e rs =>
  match m e rs with
  | mkOut (Throw x) e1 rs1 evs1 => after evs1 (h x e1 rs1)
  | o => o
  end.

Declare Scope enc_scope.
Delimit Scope enc_scope with enc.
Notation "x <- m ;; k" := (bind m (fun x => k))
  (at level 61, m at next level, right associativity) : enc_scope.
Notation "m ;; k" := (bind m (fun _ => k))
  (at level 61, right associativity) : enc_scope.
Local Open Scope enc_scope.

Definition gets {A} (f : Encoder -> A) : M A := fun e rs => mkOut (Ok (f e)) e rs [].

Definition modify (f : Encoder -> Encoder) : M unit := fun e rs => mkOut (Ok tt) (f e) rs [].

Definition emit (ev : Event) : M unit := fun e rs => mkOut (Ok tt) e rs [ev].

Definition script_length : M nat := fun e rs => mkOut (Ok (List.length rs)) e rs [].

(** A call into the outside world: the answer is the next entry of the
    script, or [dflt] once the script is exhausted. *)
Definition ext (dflt : Z) (ev : Z -> Event) : M Z := fun e rs =>
  match rs with
  | [] => mkOut (Ok dflt) e [] [ev dflt]
  | r :: rs' => mkOut (Ok r) e rs' [ev r]
  end.

Definition when (b : bool) (m : M unit) : M unit := if b then m else ret tt.

(** ** Calls into the libraries *)

(** What [av_packet_alloc] returns and what [av_packet_unref] restores. *)
Definition blank_packet : AVPacket := mkPacket false 0.

(** [converter->convert(frame, buffer)]: fills the frame in place, or
    raises. *)
Definition convert (buffer : Z) : M unit :=
  c <- gets converter ;;
  if negb c then undefined
  else
    r <- ext 0 (EvConvert buffer) ;;
    if r <? 0 then throw (StdException "convert failed")
    else modify (fun e => set_frame (mkFrame buffer (frame_pts (frame e))) e).

(** [avcodec_send_frame(codecCtx.get(), f)]. *)
Definition avcodec_send_frame (f : option Frame) : M Z :=
  ext 0 (EvSendFrame f).

(** [avcodec_receive_packet(codecCtx.get(), packet)]: a non-negative
    answer leaves a payload in the packet, a negative one leaves the packet
    as it was; [idle] is the answer of a codec that has nothing left. *)
Definition avcodec_receive_packet (idle : Z) : M Z :=
  p <- gets packet ;;
  match p with
  | None => undefined
  | Some pk =>
      r <- ext idle EvReceivePacket ;;
      when (0 <=? r) (modify (set_packet (Some (mkPacket true (stream_index pk))))) ;;
      ret r
  end.

(** [av_packet_rescale_ts(packet, codecCtx->time_base, stream->time_base);
    packet->stream_index = stream->index;] *)
Definition rescale_and_index : M unit :=
  c <- gets codecCtx ;;
  s <- gets stream ;;
  p <- gets packet ;;
  match c, s, p with
  | Some cc, Some st, Some pk =>
      emit (EvRescaleTs (time_base cc) (st_time_base st)) ;;
      modify (set_packet (Some (mkPacket (pkt_ref pk) (index st))))
  | _, _, _ => undefined
  end.

(** [av_interleaved_write_frame(formatCtx.get(), packet)]. *)
Definition av_interleaved_write_frame : M Z :=
  p <- gets packet ;;
  match p with
  | None => undefined
  | Some pk => ext 0 (EvWriteFrame pk)
  end.

(** [av_packet_unref(packet)]. *)
Definition av_packet_unref : M unit :=
  p <- gets packet ;;
  match p with
  | None => undefined
  | Some _ => emit EvPacketUnref ;; modify (set_packet (Some blank_packet))
  end.

(** [av_write_trailer(formatCtx.get())]. *)
Definition av_write_trailer : M Z := ext 0 EvWriteTrailer.

(** [unique_ptr::reset]: the deleter runs when a context is owned. *)
Definition reset_formatCtx (v : option AVFormatContext) : M unit :=
  c <- gets formatCtx ;;
  when (match c with Some _ => true | None => false end) (emit EvFreeFormatCtx) ;;
  modify (set_formatCtx v).

Definition reset_codecCtx (v : option AVCodecContext) : M unit :=
  c <- gets codecCtx ;;
  when (match c with Some _ => true | None => false end) (emit EvFreeCodecCtx) ;;
  modify (set_codecCtx v).

Definition reset_hwDeviceCtx : M unit :=
  c <- gets hwDeviceCtx ;;
  when (match c with Some _ => true | None => false end) (emit EvFreeHwDeviceCtx) ;;
  modify (set_hwDeviceCtx None).

Definition reset_hwFramesCtx : M unit :=
  c <- gets hwFramesCtx ;;
  when (match c with Some _ => true | None => false end) (emit EvFreeHwFramesCtx) ;;
  modify (set_hwFramesCtx None).

(** Modelled from the spec: the [FF_CHECK] macro, whose header is not among
    the sources.  Opening the codec is one of the steps whose failure aborts
    initialization: a negative return code raises. *)
Definition FF_CHECK (r : Z) : M unit :=
  when (r <? 0) (throw (CxException "FFmpeg call failed")).

(** A rendering of error codes, to run the methods on examples. *)
Definition plain_error (r : Z) : string := "error".

(** ** The encoder's methods *)

Section EncoderMethods.

(** [celux::errorToString], defined outside the sources at hand. *)
Variable errorToString : Z -> string.

(** Storage before the constructor has run. *)
Definition unconstructed : Encoder :=
  mkEncoder false None None None None None None None 0 (mkFrame 0 0).

(** The object a successful constructor leaves. *)
Definition fresh (conv : bool) : Encoder :=
  mkEncoder conv None None None None None (Some blank_packet) None 0 (mkFrame 0 0).

(** [Encoder::Encoder(std::unique_ptr<IConverter>)]. *)
Definition Encoder_ctor (conv : bool) : M unit :=
  modify (fun _ => mkEncoder conv None None None None None None None 0 (mkFrame 0 0)) ;;
  p <- ext 1 EvPacketAlloc ;;
  modify (set_packet (if p =? 0 then None else Some blank_packet)) ;;
  when (p =? 0) (throw (CxException "Could not allocate AVPacket")).

(** [Encoder::isOpen]. *)
Definition isOpen (e : Encoder) : bool :=
  match formatCtx e, codecCtx e with
  | Some _, Some _ => true
  | _, _ => false
  end.

(** [Encoder::openFile].  [EvOutputFormatFlags] is the read of
    [formatCtx->oformat->flags]. *)
Definition openFile (outputPath : string) (props : VideoProperties) : M unit :=
  h <- ext 1 (EvAllocOutputContext outputPath) ;;
  if h =? 0 then throw (CxException "Could not allocate output format context")
  else
    reset_formatCtx (Some (mkFormatCtx h false)) ;;
    fl <- ext 0 EvOutputFormatFlags ;;
    if Z.land fl AVFMT_NOFILE =? 0 then
      r <- ext 0 (EvAvioOpen outputPath) ;;
      if r <? 0 then throw (CxException ("Could not open output file: " ++ outputPath)%string)
      else modify (set_formatCtx (Some (mkFormatCtx h true)))
    else ret tt.

(** [Encoder::initHWAccel]: the default implementation does nothing. *)
Definition initHWAccel : M unit := ret tt.

(** [Encoder::initCodecContext]. *)
Definition initCodecContext (props : VideoProperties) : M unit :=
  h <- ext 1 EvAllocCodecContext ;;
  if h =? 0 then throw (CxException "Could not allocate codec context")
  else
    reset_codecCtx (Some (mkCodecCtx h 0 0 (mkRational 0 1) (mkRational 0 1) 0 0 0 0 0 false)) ;;
    hc <- ext 1 EvHardwareConcurrency ;;
    modify (set_codecCtx (Some (mkCodecCtx h (width props) (height props)
                                  (mkRational 1 (fps props)) (mkRational (fps props) 1)
                                  12 0 (pixelFormat props)
                                  (Z.min (to_uint32 hc) 16)
                                  (Z.lor FF_THREAD_FRAME FF_THREAD_SLICE) false))) ;;
    r <- ext 0 EvCodecOpen ;;
    FF_CHECK r ;;
    modify (fun e => match codecCtx e with
                     | Some cc =>
                         set_codecCtx (Some (mkCodecCtx (cc_handle cc) (cc_width cc) (cc_height cc)
                                               (time_base cc) (framerate cc) (gop_size cc)
                                               (max_b_frames cc) (pix_fmt cc) (thread_count cc)
                                               (thread_type cc) true)) e
                     | None => e
                     end).

(** [Encoder::initialize]. *)
Definition initialize (outputPath : string) (props : VideoProperties) : M unit :=
  modify (set_properties (Some props)) ;;
  openFile outputPath props ;;
  initHWAccel ;;
  c <- ext 1 (EvFindEncoder (codecName props)) ;;
  if c =? 0 then throw (CxException ("Encoder not found: " ++ codecName props)%string)
  else
    initCodecContext props ;;
    s <- ext 1 EvNewStream ;;
    modify (set_stream (if s =? 0 then None
                        else Some (mkStream s 0 (mkRational 0 1) false))) ;;
    if s =? 0 then throw (CxException "Failed allocating output stream")
    else
      r <- ext 0 EvParametersFromContext ;;
      if r <? 0 then throw (CxException "Failed to copy codec parameters to stream")
      else
        modify (fun e => match stream e, codecCtx e with
                         | Some st, Some cc =>
                             set_stream (Some (mkStream (st_handle st) (index st)
                                                 (time_base cc) true)) e
                         | _, _ => e
                         end) ;;
        w <- ext 0 EvWriteHeader ;;
        when (w <? 0)
             (throw (CxException "Error occurred when writing header to output file")).

(** The [while (ret >= 0)] loop of [encodeFrame]. *)
Fixpoint encode_loop (fuel : nat) (ret0 : Z) : M unit :=
  if ret0 <? 0 then ret tt
  else
    match fuel with
    | O => out_of_fuel
    | S fuel' =>
        r <- avcodec_receive_packet AVERROR_EAGAIN ;;
        if (r =? AVERROR_EAGAIN) || (r =? AVERROR_EOF) then ret tt
        else if r <? 0 then throw (CxException "Error during encoding")
        else
          rescale_and_index ;;
          w <- av_interleaved_write_frame ;;
          if w <? 0 then
            av_packet_unref ;;
            throw (CxException "Error writing packet to output file")
          else
            av_packet_unref ;;
            encode_loop fuel' w
    end.

(** [Encoder::encodeFrame]. *)
Definition encodeFrame (buffer : Z) : M bool :=
  try_catch
    (o <- gets isOpen ;;
     when (negb o) (throw (CxException "Encoder is not open")) ;;
     try_catch (convert buffer)
               (fun _ => throw (CxException "Error converting frame")) ;;
     p <- gets pts ;;
     modify (fun e => set_frame (mkFrame (frame_data (frame e)) p) e) ;;
     modify (set_pts (wrap64 (p + 1))) ;;
     f <- gets frame ;;
     r <- avcodec_send_frame (Some f) ;;
     when (r <? 0)
          (throw (CxException ("error sending frame to encoder" ++ errorToString r)%string)) ;;
     n <- script_length ;;
     encode_loop (S n) r ;;
     ret true)
    (fun x => emit (EvCerr ("Error in Write Frame: " ++ what x)%string) ;; ret false).

(** The [while (ret >= 0)] loop of [finalize].  [continue] jumps to the
    loop test, with [ret] holding what the codec just answered. *)
Fixpoint flush_loop (fuel : nat) (ret0 : Z) : M unit :=
  if ret0 <? 0 then ret tt
  else
    match fuel with
    | O => out_of_fuel
    | S fuel' =>
        r <- avcodec_receive_packet AVERROR_EOF ;;
        if r =? AVERROR_EOF then ret tt
        else if r =? AVERROR_EAGAIN then flush_loop fuel' r
        else if r <? 0 then throw (CxException "Error during encoding flush")
        else
          rescale_and_index ;;
          w <- av_interleaved_write_frame ;;
          if w <? 0 then
            av_packet_unref ;;
            throw (CxException "Error writing flushed packet to output file")
          else
            av_packet_unref ;;
            flush_loop fuel' w
    end.

(** [Encoder::finalize]. *)
Definition finalize : M bool :=
  o <- gets isOpen ;;
  if negb o then ret false
  else
    r <- avcodec_send_frame None ;;
    when (r <? 0) (throw (CxException "Error sending flush frame to encoder")) ;;
    n <- script_length ;;
    flush_loop (S n) r ;;
    t <- av_write_trailer ;;
    when (t <? 0) (throw (CxException "Error writing trailer to output file")) ;;
    ret true.

(** [Encoder::close]. *)
Definition close : M unit :=
  finalize ;;
  p <- gets packet ;;
  when (match p with Some _ => true | None => false end)
       (emit EvPacketFree ;; modify (set_packet None)) ;;
  reset_codecCtx None ;;
  reset_formatCtx None ;;
  reset_hwDeviceCtx ;;
  reset_hwFramesCtx ;;
  modify (set_stream None).

(** [Encoder::~Encoder]. *)
Definition Encoder_dtor : M unit := close.

(** What a move leaves of [other]: the smart pointers are null, [stream]
    and [packet] are nulled by hand, the rest is as it was. *)
Definition moved_from (other : Encoder) : Encoder :=
  mkEncoder false None None None None None None
            (properties other) (pts other) (frame other).

(** [Encoder::Encoder(Encoder&&)]: the new object and what is left of
    [other]. *)
Definition move_construct (other : Encoder) : Encoder * Encoder :=
  (mkEncoder (converter other) (formatCtx other) (codecCtx other)
             (hwDeviceCtx other) (hwFramesCtx other) (stream other)
             (packet other) (properties other) (pts other) (mkFrame 0 0),
   moved_from other).

(** [Encoder::operator=(Encoder&&)], for [this != &other]: returns what is
    left of [other].  The operator is declared [noexcept]. *)
Definition move_assign (other : Encoder) : M Encoder :=
  close ;;
  modify (fun e => mkEncoder (converter other) (formatCtx other) (codecCtx other)
                             (hwDeviceCtx other) (hwFramesCtx other)
                             (stream other) (packet other) (properties other)
                             (pts other) (frame e)) ;;
  ret (moved_from other).

(** ** Sessions: a constructed encoder driven by a caller *)

Inductive Call :=
| CallInitialize (outputPath : string) (props : VideoProperties)
| CallEncodeFrame (buffer : Z)
| CallFinalize
| CallClose.

Definition call (c : Call) : M unit :=
  match c with
  | CallInitialize path props => initialize path props
  | CallEncodeFrame buffer => encodeFrame buffer ;; ret tt
  | CallFinalize => finalize ;; ret tt
  | CallClose => close
  end.

(** The caller handles whatever a call raises and goes on. *)
Fixpoint calls (cs : list Call) : M unit :=
  match cs with
  | [] => ret tt
  | c :: cs' => try_catch (call c) (fun _ => ret tt) ;; calls cs'
  end.

Definition session (conv : bool) (cs : list Call) (rs : list Z) : Out unit :=
  (Encoder_ctor conv ;; calls cs) unconstructed rs.

(** ** Observations on event lists *)

(** The presentation timestamps of the frames submitted to the codec. *)
Fixpoint stamps (evs : list Event) : list Z :=
  match evs with
  | [] => []
  | EvSendFrame (Some f) _ :: evs' => frame_pts f :: stamps evs'
  | _ :: evs' => stamps evs'
  end.

(** Events by which the world reports a failure to the encoder. *)
Definition is_failure (ev : Event) : bool :=
  match ev with
  | EvConvert _ r => r <? 0
  | EvSendFrame _ r => r <? 0
  | EvReceivePacket r =>
      (r <? 0) && negb (r =? AVERROR_EAGAIN) && negb (r =? AVERROR_EOF)
  | EvWriteFrame _ r => r <? 0
  | EvWriteTrailer r => r <? 0
  | _ => false
  end.

Definition is_cerr (ev : Event) : bool :=
  match ev with EvCerr _ => true | _ => false end.

Definition is_write (ev : Event) : bool :=
  match ev with EvWriteFrame _ _ => true | _ => false end.

(** Every write attempt is directly followed by the release of the
    packet. *)
Fixpoint unref_follows_write (evs : list Event) : bool :=
  match evs with
  | [] => true
  | EvWriteFrame _ _ :: evs' =>
      match evs' with
      | EvPacketUnref :: _ => unref_follows_write evs'
      | _ => false
      end
  | _ :: evs' => unref_follows_write evs'
  end.

Definition packet_unreferenced (e : Encoder) : bool :=
  match packet e with
  | Some pk => negb (pkt_ref pk)
  | None => true
  end.

(** ** Specification vocabulary *)

(** [m] moves the encoder only along [R] and emits only events that
    [allowed] accepts, whatever the world answers. *)
Definition framed (R : Encoder -> Encoder -> Prop) (allowed : Event -> bool)
  {A} (m : M A) : Prop :=
  forall e rs,
    R e (o_enc (m e rs)) /\ forallb allowed (o_evs (m e rs)) = true.

Definition same_pts (e e' : Encoder) : Prop := pts e' = pts e.

Definition same_open (e e' : Encoder) : Prop := isOpen e' = isOpen e.

Definition stays_open (e e' : Encoder) : Prop :=
  isOpen e = true -> isOpen e' = true.

(** Only the packet member differs. *)
Definition same_but_packet (e e' : Encoder) : Prop :=
  e' = set_packet (packet e') e.

Definition any_encoder (e e' : Encoder) : Prop := True.

Definition not_stamp (ev : Event) : bool :=
  match ev with
  | EvSendFrame (Some _) _ => false
  | EvCerr _ => false
  | _ => true
  end.

Definition any_event (ev : Event) : bool := true.

Definition in_int64 (z : Z) : Prop := - 2^63 <= z < 2^63.

(** What one run of either drain loop guarantees, from encoder [e]. *)
Record loop_ok (e : Encoder) (o : Out unit) : Prop := mkLoopOk {
  lo_fuel : o_res o <> OutOfFuel;
  lo_unref : forall tl, unref_follows_write tl = true ->
                        unref_follows_write (o_evs o ++ tl) = true;
  lo_fail : existsb is_failure (o_evs o) = true <-> exists x, o_res o = Throw x;
  lo_written : existsb is_write (o_evs o) = true ->
               packet_unreferenced (o_enc o) = true;
  lo_blank : o_res o <> Undefined -> packet_unreferenced e = true ->
             packet_unreferenced (o_enc o) = true;
  lo_defined : packet e <> None -> stream e <> None -> codecCtx e <> None ->
               o_res o <> Undefined
}.

(** Failures of the steps of [initialize]. *)
Definition is_init_failure (ev : Event) : bool :=
  match ev with
  | EvAllocOutputContext _ r => r =? 0
  | EvAvioOpen _ r => r <? 0
  | EvFindEncoder _ r => r =? 0
  | EvAllocCodecContext r => r =? 0
  | EvCodecOpen r => r <? 0
  | EvNewStream r => r =? 0
  | EvParametersFromContext r => r <? 0
  | EvWriteHeader r => r <? 0
  | _ => false
  end.

(** The codec context was allocated. *)
Definition codec_allocated (ev : Event) : bool :=
  match ev with
  | EvAllocCodecContext r => negb (r =? 0)
  | _ => false
  end.

(** Events of relaying one packet. *)
Definition is_relay (ev : Event) : bool :=
  match ev with
  | EvReceivePacket _ | EvRescaleTs _ _ | EvWriteFrame _ _ | EvPacketUnref => true
  | _ => false
  end.

(** The encoder once frame [buffer] has been converted and stamped. *)
Definition stamped (buffer : Z) (e : Encoder) : Encoder :=
  set_pts (wrap64 (pts e + 1)) (set_frame (mkFrame buffer (pts e)) e).

(** What the [catch] clause of [encodeFrame] makes of the outcome of the
    drain loop. *)
Definition caught (o : Out unit) : Out bool :=
  match o with
  | mkOut (Ok _) e rs evs => mkOut (Ok true) e rs evs
  | mkOut (Throw x) e rs evs =>
      mkOut (Ok false) e rs
            (evs ++ [EvCerr ("Error in Write Frame: " ++ what x)%string])
  | mkOut Undefined e rs evs => mkOut Undefined e rs evs
  | mkOut OutOfFuel e rs evs => mkOut OutOfFuel e rs evs
  end.

(** What [finalize] does with the outcome of the flush loop: write the
    trailer when the loop ended normally. *)
Definition trailer (o : Out unit) : Out bool :=
  match o with
  | mkOut (Ok _) e rs evs =>
      mkOut (if hd 0 rs <? 0
             then Throw (CxException "Error writing trailer to output file")
             else Ok true)
            e (tl rs) (evs ++ [EvWriteTrailer (hd 0 rs)])
  | mkOut (Throw x) e rs evs => mkOut (Throw x) e rs evs
  | mkOut Undefined e rs evs => mkOut Undefined e rs evs
  | mkOut OutOfFuel e rs evs => mkOut OutOfFuel e rs evs
  end.

(** The encoder after the teardown of [close]. *)
Definition released (e : Encoder) : Encoder :=
  set_stream None
    (set_hwFramesCtx None
       (set_hwDeviceCtx None
          (set_formatCtx None (set_codecCtx None (set_packet None e))))).

(** What the teardown of [close] frees, in order. *)
Definition teardown_events (e : Encoder) : list Event :=
  match packet e with Some _ => [EvPacketFree] | None => [] end
  ++ match codecCtx e with Some _ => [EvFreeCodecCtx] | None => [] end
  ++ match formatCtx e with Some _ => [EvFreeFormatCtx] | None => [] end
  ++ match hwDeviceCtx e with Some _ => [EvFreeHwDeviceCtx] | None => [] end
  ++ match hwFramesCtx e with Some _ => [EvFreeHwFramesCtx] | None => [] end.

(** What every run of [initialize] satisfies on an encoder without a codec
    context: it returns or raises; it raises exactly when a step failed; and
    the encoder is open afterwards exactly when the codec context was
    allocated. *)
Definition init_ok (o : Out unit) : Prop :=
  (o_res o = Ok tt \/ exists x, o_res o = Throw x)
  /\ (existsb is_init_failure (o_evs o) = true <-> exists x, o_res o = Throw x)
  /\ isOpen (o_enc o) = existsb codec_allocated (o_evs o).

(** An open encoder as [initialize] leaves it in a quiescent world. *)
Definition props_720p : VideoProperties := mkProps 1280 720 30 0 "libx264".

Definition opened : Encoder :=
  o_enc (initialize "out.mp4" props_720p (fresh true) []).

(** ** Further vocabulary: relaying, ownership, the codec registry *)

Definition rational_eqb (a b : AVRational) : bool :=
  (num a =? num b) && (den a =? den b).

(** Every packet the codec hands over is rescaled from the codec's to the
    stream's time base, given the stream's index, written and released,
    in this order and before anything else happens. *)
Fixpoint well_relayed (cc : AVCodecContext) (st : AVStream) (evs : list Event)
  : bool :=
  match evs with
  | [] => true
  | EvReceivePacket r :: evs' =>
      if r <? 0 then well_relayed cc st evs'
      else
        match evs' with
        | EvRescaleTs src dst :: EvWriteFrame pk _ :: EvPacketUnref :: evs'' =>
            rational_eqb src (time_base cc)
            && rational_eqb dst (st_time_base st)
            && pkt_ref pk
            && (stream_index pk =? index st)
            && well_relayed cc st evs''
        | _ => false
        end
  | EvRescaleTs _ _ :: _ => false
  | EvWriteFrame _ _ :: _ => false
  | EvPacketUnref :: _ => false
  | _ :: evs' => well_relayed cc st evs'
  end.

(** The contexts, the stream, the converter and the configuration are the
    same. *)
Definition same_contexts (e e' : Encoder) : Prop :=
  converter e' = converter e
  /\ formatCtx e' = formatCtx e
  /\ codecCtx e' = codecCtx e
  /\ hwDeviceCtx e' = hwDeviceCtx e
  /\ hwFramesCtx e' = hwFramesCtx e
  /\ stream e' = stream e
  /\ properties e' = properties e.

(** The working members (converter, hardware contexts, packet, counter,
    frame) are the same. *)
Definition same_work (e e' : Encoder) : Prop :=
  converter e' = converter e
  /\ hwDeviceCtx e' = hwDeviceCtx e
  /\ hwFramesCtx e' = hwFramesCtx e
  /\ packet e' = packet e
  /\ pts e' = pts e
  /\ frame e' = frame e.

Definition is_send (ev : Event) : bool :=
  match ev with EvSendFrame _ _ => true | _ => false end.

Definition is_avio_open (ev : Event) : bool :=
  match ev with EvAvioOpen _ _ => true | _ => false end.

(** An entry of the codec registry that [av_codec_iterate] walks. *)
Record AVCodec := mkCodec {
  codec_name : string;
  codec_long_name : option string;
  codec_is_encoder : bool
}.

(** The string [listSupportedEncoders] builds for one codec. *)
Definition codecInfo (c : AVCodec) : string :=
  match codec_long_name c with
  | Some long => (codec_name c ++ (" - " ++ long))%string
  | None => codec_name c
  end.

(** [Encoder::listSupportedEncoders]: the loop over [av_codec_iterate]. *)
Fixpoint listSupportedEncoders (registry : list AVCodec) : list string :=
  match registry with
  | [] => []
  | codec :: rest =>
      if codec_is_encoder codec
      then codecInfo codec :: listSupportedEncoders rest
      else listSupportedEncoders rest
  end.



(** The run ended, if it ended normally, on the codec saying that it has
    nothing (more) to give. *)
Definition ends_idle {A} (o : Out A) : Prop :=
  (exists a, o_res o = Ok a) ->
  exists evs r,
    o_evs o = evs ++ [EvReceivePacket r]
    /\ (r = AVERROR_EAGAIN \/ r = AVERROR_EOF).

Definition no_send (ev : Event) : bool := negb (is_send ev).


(** The codec context and the stream of [opened]. *)
Definition opened_codec : AVCodecContext :=
  mkCodecCtx 1 1280 720 (mkRational 1 30) (mkRational 30 1) 12 0 0 1 3 true.

Definition opened_stream : AVStream :=
  mkStream 1 0 (mkRational 1 30) true.

(** * Properties *)

Arguments encode_loop : simpl never.
Arguments flush_loop : simpl never.

(** ** Framing: what a computation leaves alone *)

Section Frame.

Variable R : Encoder -> Encoder -> Prop.
Variable allowed : Event -> bool.
Context {R_pre : PreOrder R}.

Lemma framed_ret {A} (a : A) : framed R allowed (ret a).
Proof. intros e rs. split; [reflexivity | reflexivity]. Qed.

Lemma framed_throw {A} (x : exn) : framed R allowed (@throw A x).
Proof. intros e rs. split; [reflexivity | reflexivity]. Qed.

Lemma framed_undefined {A} : framed R allowed (@undefined A).
Proof. intros e rs. split; [reflexivity | reflexivity]. Qed.

Lemma framed_out_of_fuel {A} : framed R allowed (@out_of_fuel A).
Proof. intros e rs. split; [reflexivity | reflexivity]. Qed.

Lemma framed_gets {A} (f : Encoder -> A) : framed R allowed (gets f).
Proof. intros e rs. split; [reflexivity | reflexivity]. Qed.

Lemma framed_script_length : framed R allowed script_length.
Proof. intros e rs. split; [reflexivity | reflexivity]. Qed.

Lemma framed_modify (f : Encoder -> Encoder) :
  (forall e, R e (f e)) -> framed R allowed (modify f).
Proof. intros Hf e rs. split; [apply Hf | reflexivity]. Qed.

Lemma framed_emit (ev : Event) :
  allowed ev = true -> framed R allowed (emit ev).
Proof. intros Hev e rs. split; [reflexivity | simpl; now rewrite Hev]. Qed.

Lemma framed_ext (dflt : Z) (ev : Z -> Event) :
  (forall r, allowed (ev r) = true) -> framed R allowed (ext dflt ev).
Proof.
  intros Hev e rs. unfold ext.
  destruct rs as [|r rs]; simpl; rewrite Hev; split; reflexivity.
Qed.

Lemma framed_after {A} (e : Encoder) (evs : list Event) (o : Out A) :
  R e (o_enc o) -> forallb allowed evs = true ->
  forallb allowed (o_evs o) = true ->
  R e (o_enc (after evs o)) /\ forallb allowed (o_evs (after evs o)) = true.
Proof.
  destruct o as [res e1 rs1 evs1]; simpl. intros HR H1 H2.
  split; [exact HR | now rewrite forallb_app, H1, H2].
Qed.

Lemma framed_bind {A B} (m : M A) (k : A -> M B) :
  framed R allowed m -> (forall a, framed R allowed (k a)) ->
  framed R allowed (bind m k).
Proof.
  intros Hm Hk e rs. unfold bind.
  destruct (Hm e rs) as [HR HQ].
  destruct (m e rs) as [res e1 rs1 evs1]; simpl in *.
  destruct res as [a|x| |]; simpl; auto.
  destruct (Hk a e1 rs1) as [HR2 HQ2].
  apply framed_after; auto. now transitivity e1.
Qed.

Lemma framed_try_catch {A} (m : M A) (h : exn -> M A) :
  framed R allowed m -> (forall x, framed R allowed (h x)) ->
  framed R allowed (try_catch m h).
Proof.
  intros Hm Hh e rs. unfold try_catch.
  destruct (Hm e rs) as [HR HQ].
  destruct (m e rs) as [res e1 rs1 evs1]; simpl in *.
  destruct res as [a|x| |]; simpl; auto.
  destruct (Hh x e1 rs1) as [HR2 HQ2].
  apply framed_after; auto. now transitivity e1.
Qed.

Lemma framed_when (b : bool) (m : M unit) :
  framed R allowed m -> framed R allowed (when b m).
Proof. intros Hm. destruct b; [exact Hm | apply framed_ret]. Qed.

End Frame.

#[local] Instance same_pts_pre : PreOrder same_pts.
Proof. split; unfold same_pts; [intros e | intros a b c]; congruence. Qed.

#[local] Instance same_open_pre : PreOrder same_open.
Proof. split; unfold same_open; [intros e | intros a b c]; congruence. Qed.

#[local] Instance stays_open_pre : PreOrder stays_open.
Proof. split; unfold stays_open; [intros e | intros a b c]; auto. Qed.

#[local] Instance same_but_packet_pre : PreOrder same_but_packet.
Proof.
  split; unfold same_but_packet.
  - intros [c f cc hd hf s p pr t fr]. reflexivity.
  - intros a b c Hb Hc. destruct a, b, c; unfold set_packet in *; simpl in *.
    congruence.
Qed.

(** Decomposes a framing goal along the structure of the computation. *)
Ltac solve_pre :=
  match goal with
  | |- PreOrder _ => typeclasses eauto
  | _ => idtac
  end.

Ltac frame_bind := apply framed_bind; solve_pre.

Ltac frame_with L := apply L; solve_pre.

Ltac framing :=
  repeat first
    [ frame_with framed_ret | frame_with framed_throw
    | frame_with framed_undefined | frame_with framed_out_of_fuel
    | frame_with framed_gets | frame_with framed_script_length
    | frame_with framed_when
    | frame_bind; [ | intros ? ]
    | frame_with framed_try_catch; [ | intros ? ]
    | frame_with framed_modify; intros ?
    | frame_with framed_emit
    | frame_with framed_ext; intros ?
    | match goal with
      | |- framed _ _ (if ?b then _ else _) => destruct b
      | |- framed _ _ (match ?x with _ => _ end) => destruct x
      end ].

(** ** The drain loops *)

Lemma encode_loop_O ret0 :
  encode_loop O ret0 = if ret0 <? 0 then ret tt else out_of_fuel.
Proof. reflexivity. Qed.

Lemma encode_loop_S fuel ret0 :
  encode_loop (S fuel) ret0 =
  if ret0 <? 0 then ret tt
  else
    r <- avcodec_receive_packet AVERROR_EAGAIN ;;
    if (r =? AVERROR_EAGAIN) || (r =? AVERROR_EOF) then ret tt
    else if r <? 0 then throw (CxException "Error during encoding")
    else
      rescale_and_index ;;
      w <- av_interleaved_write_frame ;;
      if w <? 0 then
        av_packet_unref ;;
        throw (CxException "Error writing packet to output file")
      else
        av_packet_unref ;;
        encode_loop fuel w.
Proof. reflexivity. Qed.

Lemma flush_loop_O ret0 :
  flush_loop O ret0 = if ret0 <? 0 then ret tt else out_of_fuel.
Proof. reflexivity. Qed.

Lemma flush_loop_S fuel ret0 :
  flush_loop (S fuel) ret0 =
  if ret0 <? 0 then ret tt
  else
    r <- avcodec_receive_packet AVERROR_EOF ;;
    if r =? AVERROR_EOF then ret tt
    else if r =? AVERROR_EAGAIN then flush_loop fuel r
    else if r <? 0 then throw (CxException "Error during encoding flush")
    else
      rescale_and_index ;;
      w <- av_interleaved_write_frame ;;
      if w <? 0 then
        av_packet_unref ;;
        throw (CxException "Error writing flushed packet to output file")
      else
        av_packet_unref ;;
        flush_loop fuel w.
Proof. reflexivity. Qed.

Section LoopFrame.

Variable R : Encoder -> Encoder -> Prop.
Variable allowed : Event -> bool.
Context {R_pre : PreOrder R}.
Hypothesis R_packet : forall v e, R e (set_packet v e).
Hypothesis relay_allowed : forall ev, is_relay ev = true -> allowed ev = true.

Lemma framed_receive idle : framed R allowed (avcodec_receive_packet idle).
Proof.
  unfold avcodec_receive_packet. framing; auto.
Qed.

Lemma framed_relay_step {A} (k : Z -> M A) :
  (forall w, framed R allowed (k w)) ->
  framed R allowed (rescale_and_index ;; w <- av_interleaved_write_frame ;; k w).
Proof.
  intros Hk. unfold rescale_and_index, av_interleaved_write_frame.
  framing; auto.
Qed.

Lemma framed_unref : framed R allowed av_packet_unref.
Proof.
  unfold av_packet_unref. framing; auto.
Qed.

Lemma framed_encode_loop fuel : forall ret0, framed R allowed (encode_loop fuel ret0).
Proof.
  induction fuel as [|fuel IH]; intros ret0.
  - rewrite encode_loop_O. framing.
  - rewrite encode_loop_S.
    destruct (ret0 <? 0); [frame_with framed_ret|].
    frame_bind; [apply framed_receive | intros r].
    destruct ((r =? AVERROR_EAGAIN) || (r =? AVERROR_EOF)); [frame_with framed_ret|].
    destruct (r <? 0); [frame_with framed_throw|].
    apply framed_relay_step. intros w.
    destruct (w <? 0); (frame_bind; [apply framed_unref | intros _]).
    + frame_with framed_throw.
    + apply IH.
Qed.

Lemma framed_flush_loop fuel : forall ret0, framed R allowed (flush_loop fuel ret0).
Proof.
  induction fuel as [|fuel IH]; intros ret0.
  - rewrite flush_loop_O. framing.
  - rewrite flush_loop_S.
    destruct (ret0 <? 0); [frame_with framed_ret|].
    frame_bind; [apply framed_receive | intros r].
    destruct (r =? AVERROR_EOF); [frame_with framed_ret|].
    destruct (r =? AVERROR_EAGAIN); [apply IH|].
    destruct (r <? 0); [frame_with framed_throw|].
    apply framed_relay_step. intros w.
    destruct (w <? 0); (frame_bind; [apply framed_unref | intros _]).
    + frame_with framed_throw.
    + apply IH.
Qed.

Lemma framed_finalize :
  (forall r, allowed (EvSendFrame None r) = true) ->
  (forall r, allowed (EvWriteTrailer r) = true) ->
  framed R allowed finalize.
Proof.
  intros Hs Ht. unfold finalize, avcodec_send_frame, av_write_trailer.
  frame_bind; [frame_with framed_gets | intros o].
  destruct (negb o); [frame_with framed_ret|].
  frame_bind; [frame_with framed_ext; intros; now apply Hs | intros r].
  frame_bind; [framing | intros _].
  frame_bind; [framing | intros n].
  frame_bind; [apply framed_flush_loop | intros _].
  frame_bind; [frame_with framed_ext; intros; apply Ht | intros t].
  framing.
Qed.

End LoopFrame.

(** ** Running a computation: the equations of the monad *)

Lemma after_nil {A} (o : Out A) : after [] o = o.
Proof. destruct o; reflexivity. Qed.

Lemma after_after {A} (l1 l2 : list Event) (o : Out A) :
  after l1 (after l2 o) = after (l1 ++ l2) o.
Proof. destruct o; simpl. now rewrite app_assoc. Qed.

Lemma run_ret {A} (a : A) e rs : ret a e rs = mkOut (Ok a) e rs [].
Proof. reflexivity. Qed.

Lemma run_throw {A} (x : exn) e rs : @throw A x e rs = mkOut (Throw x) e rs [].
Proof. reflexivity. Qed.

Lemma run_undefined {A} e rs : @undefined A e rs = mkOut Undefined e rs [].
Proof. reflexivity. Qed.

Lemma run_bind_ret {A B} (a : A) (k : A -> M B) e rs :
  bind (ret a) k e rs = k a e rs.
Proof. unfold bind, ret. apply after_nil. Qed.

Lemma run_bind_throw {A B} (x : exn) (k : A -> M B) e rs :
  bind (throw x) k e rs = mkOut (Throw x) e rs [].
Proof. reflexivity. Qed.

Lemma run_bind_undefined {A B} (k : A -> M B) e rs :
  bind undefined k e rs = mkOut Undefined e rs [].
Proof. reflexivity. Qed.

Lemma run_bind_gets {A B} (f : Encoder -> A) (k : A -> M B) e rs :
  bind (gets f) k e rs = k (f e) e rs.
Proof. unfold bind, gets. apply after_nil. Qed.

Lemma run_bind_modify {B} (f : Encoder -> Encoder) (k : unit -> M B) e rs :
  bind (modify f) k e rs = k tt (f e) rs.
Proof. unfold bind, modify. apply after_nil. Qed.

Lemma run_bind_emit {B} (ev : Event) (k : unit -> M B) e rs :
  bind (emit ev) k e rs = after [ev] (k tt e rs).
Proof. reflexivity. Qed.

Lemma run_bind_script_length {B} (k : nat -> M B) e rs :
  bind script_length k e rs = k (List.length rs) e rs.
Proof. unfold bind, script_length. apply after_nil. Qed.

Lemma run_bind_ext_nil {B} (dflt : Z) (ev : Z -> Event) (k : Z -> M B) e :
  bind (ext dflt ev) k e [] = after [ev dflt] (k dflt e []).
Proof. reflexivity. Qed.

Lemma run_bind_ext_cons {B} (dflt : Z) (ev : Z -> Event) (k : Z -> M B) e r rs :
  bind (ext dflt ev) k e (r :: rs) = after [ev r] (k r e rs).
Proof. reflexivity. Qed.

Lemma run_ext_nil (dflt : Z) (ev : Z -> Event) e :
  ext dflt ev e [] = mkOut (Ok dflt) e [] [ev dflt].
Proof. reflexivity. Qed.

Lemma run_ext_cons (dflt : Z) (ev : Z -> Event) e r rs :
  ext dflt ev e (r :: rs) = mkOut (Ok r) e rs [ev r].
Proof. reflexivity. Qed.

Lemma run_bind_bind {A B C} (m : M A) (k : A -> M B) (k' : B -> M C) e rs :
  bind (bind m k) k' e rs = bind m (fun a => bind (k a) k') e rs.
Proof.
  unfold bind. destruct (m e rs) as [[a|x| |] e1 rs1 evs1]; try reflexivity.
  destruct (k a e1 rs1) as [[b|x| |] e2 rs2 evs2]; simpl; try reflexivity.
  destruct (k' b e2 rs2) as [res3 e3 rs3 evs3]; simpl.
  now rewrite app_assoc.
Qed.

Lemma run_modify (f : Encoder -> Encoder) e rs :
  modify f e rs = mkOut (Ok tt) (f e) rs [].
Proof. reflexivity. Qed.

Lemma after_mkOut {A} l (r : result A) e rs evs :
  after l (mkOut r e rs evs) = mkOut r e rs (l ++ evs).
Proof. reflexivity. Qed.

Lemma run_bind_when {B} (b : bool) (m : M unit) (k : unit -> M B) e rs :
  bind (when b m) k e rs = if b then bind m k e rs else k tt e rs.
Proof. destruct b; [reflexivity | apply run_bind_ret]. Qed.

Lemma run_when (b : bool) (m : M unit) e rs :
  when b m e rs = if b then m e rs else mkOut (Ok tt) e rs [].
Proof. destruct b; reflexivity. Qed.

(** Evaluates the comparisons between literals. *)
Ltac eval_tests :=
  repeat match goal with
  | |- context [Z.ltb ?a ?b] =>
      let v := eval vm_compute in (Z.ltb a b) in
      match v with true => idtac | false => idtac end;
      change (Z.ltb a b) with v
  | |- context [Z.leb ?a ?b] =>
      let v := eval vm_compute in (Z.leb a b) in
      match v with true => idtac | false => idtac end;
      change (Z.leb a b) with v
  | |- context [Z.eqb ?a ?b] =>
      let v := eval vm_compute in (Z.eqb a b) in
      match v with true => idtac | false => idtac end;
      change (Z.eqb a b) with v
  end.

(** Symbolic execution of straight-line code. *)
Ltac run :=
  repeat (progress (
    rewrite ?run_bind_bind, ?run_bind_ret, ?run_bind_throw, ?run_bind_undefined,
      ?run_bind_gets, ?run_bind_modify, ?run_bind_emit, ?run_bind_script_length,
      ?run_bind_ext_nil, ?run_bind_ext_cons, ?after_after, ?after_nil,
      ?run_ret, ?run_throw, ?run_undefined, ?run_ext_nil, ?run_ext_cons,
      ?run_modify, ?after_mkOut, ?run_bind_when, ?run_when;
    eval_tests;
    cbn beta iota delta [when app orb andb negb
      converter formatCtx codecCtx hwDeviceCtx hwFramesCtx stream packet
      properties pts frame pkt_ref stream_index index set_formatCtx set_codecCtx set_hwDeviceCtx
      set_hwFramesCtx set_stream set_packet set_properties set_pts set_frame])).

(** Turns the boolean tests in the context into arithmetic. *)
Ltac tests_to_Z :=
  unfold AVERROR_EAGAIN, AVERROR_EOF in *;
  repeat match goal with
  | H : (_ <? _) = true |- _ => apply Z.ltb_lt in H
  | H : (_ <? _) = false |- _ => apply Z.ltb_ge in H
  | H : (_ <=? _) = true |- _ => apply Z.leb_le in H
  | H : (_ <=? _) = false |- _ => apply Z.leb_gt in H
  | H : (_ =? _) = true |- _ => apply Z.eqb_eq in H
  | H : (_ =? _) = false |- _ => apply Z.eqb_neq in H
  end.

(** Case analysis on a test, dropping the impossible cases. *)
Ltac split_test t :=
  let H := fresh "Ht" in
  destruct t eqn:H; try (exfalso; tests_to_Z; lia).

Ltac loop_leaf :=
  constructor; cbn [o_res o_enc o_evs o_rest];
  [ discriminate
  | intros tl Htl; simpl; exact Htl
  | cbn [existsb is_failure orb andb negb];
    repeat match goal with H : _ = _ |- _ => rewrite H end;
    cbn [orb andb negb];
    split; [ try discriminate; intros _; eexists; reflexivity
           | try (intros [x Hx]; discriminate); reflexivity ]
  | cbn [existsb is_write orb]; try discriminate; intros _; reflexivity
  | intros Hdef Hbl; try congruence; try reflexivity
  | intros Hp Hs Hc; try congruence; discriminate ].

Lemma encode_loop_neg fuel ret0 :
  (ret0 <? 0) = true -> encode_loop fuel ret0 = ret tt.
Proof.
  intros H. destruct fuel; [rewrite encode_loop_O | rewrite encode_loop_S];
    now rewrite H.
Qed.

Lemma flush_loop_neg fuel ret0 :
  (ret0 <? 0) = true -> flush_loop fuel ret0 = ret tt.
Proof.
  intros H. destruct fuel; [rewrite flush_loop_O | rewrite flush_loop_S];
    now rewrite H.
Qed.

(** One relayed packet in front of a run of the loop. *)
Lemma loop_ok_step (e e' : Encoder) (r w : Z) (src dst : AVRational)
      (pk : AVPacket) (o : Out unit) :
  (r <? 0) = false -> (w <? 0) = false ->
  packet e' = Some blank_packet ->
  stream e' = stream e -> codecCtx e' = codecCtx e ->
  stream e <> None -> codecCtx e <> None ->
  loop_ok e' o ->
  loop_ok e (after [EvReceivePacket r; EvRescaleTs src dst;
                    EvWriteFrame pk w; EvPacketUnref] o).
Proof.
  intros Hr Hw Hp Hs Hc Hsn Hcn [Hfuel Hunref Hfail Hwr Hbl Hdef].
  destruct o as [res e1 rs1 evs1]; cbn [after o_res o_enc o_evs o_rest] in *.
  assert (Hnd : res <> Undefined).
  { apply Hdef; congruence. }
  assert (Hblank : packet_unreferenced e1 = true).
  { apply Hbl; [exact Hnd|]. unfold packet_unreferenced. now rewrite Hp. }
  constructor; cbn [o_res o_enc o_evs o_rest].
  - exact Hfuel.
  - intros tl Htl. simpl. now apply Hunref.
  - cbn [app existsb is_failure]. rewrite Hr, Hw. exact Hfail.
  - intros _. exact Hblank.
  - intros _ _. exact Hblank.
  - intros _ _ _. exact Hnd.
Qed.

Ltac step_loop :=
  match goal with
  | |- loop_ok ?e (after _ (_ _ _ ?e' _)) => apply (loop_ok_step e e')
  end.

Lemma encode_loop_ok fuel :
  forall ret0 e rs, (List.length rs < fuel)%nat ->
                    loop_ok e (encode_loop fuel ret0 e rs).
Proof.
  induction fuel as [|fuel IH]; intros ret0 e rs Hlen.
  - inversion Hlen.
  - rewrite encode_loop_S.
    destruct (ret0 <? 0) eqn:Hret.
    { run. loop_leaf. }
    unfold avcodec_receive_packet, rescale_and_index, av_interleaved_write_frame,
      av_packet_unref.
    run.
    destruct (packet e) as [pk|] eqn:Hpk.
    2:{ run. loop_leaf. }
    destruct rs as [|r rs]; run.
    + loop_leaf.
    + destruct (0 <=? r) eqn:Hr0; run.
      * split_test (r =? AVERROR_EAGAIN). split_test (r =? AVERROR_EOF).
        split_test (r <? 0). run. 
        destruct (codecCtx e) as [cc|] eqn:Hcc; run; [|loop_leaf].
        destruct (stream e) as [st|] eqn:Hst; run; [|loop_leaf].
        destruct rs as [|w rs]; run.
        -- step_loop; try reflexivity; try congruence.
           apply IH. simpl in *. lia.
        -- destruct (w <? 0) eqn:Hw; run.
           ++ loop_leaf.
           ++ step_loop; try reflexivity; try congruence.
              apply IH. simpl in *. lia.
      * split_test (r <? 0).
        destruct (r =? AVERROR_EAGAIN) eqn:Hag; destruct (r =? AVERROR_EOF) eqn:Heof;
          run; loop_leaf.
Qed.

Lemma flush_loop_ok fuel :
  forall ret0 e rs, (List.length rs < fuel)%nat ->
                    loop_ok e (flush_loop fuel ret0 e rs).
Proof.
  induction fuel as [|fuel IH]; intros ret0 e rs Hlen.
  - inversion Hlen.
  - rewrite flush_loop_S.
    destruct (ret0 <? 0) eqn:Hret.
    { run. loop_leaf. }
    unfold avcodec_receive_packet, rescale_and_index, av_interleaved_write_frame,
      av_packet_unref.
    run.
    destruct (packet e) as [pk|] eqn:Hpk.
    2:{ run. loop_leaf. }
    destruct rs as [|r rs]; run.
    + loop_leaf.
    + destruct (0 <=? r) eqn:Hr0; run.
      * split_test (r =? AVERROR_EOF). split_test (r =? AVERROR_EAGAIN).
        split_test (r <? 0). run. 
        destruct (codecCtx e) as [cc|] eqn:Hcc; run; [|loop_leaf].
        destruct (stream e) as [st|] eqn:Hst; run; [|loop_leaf].
        destruct rs as [|w rs]; run.
        -- step_loop; try reflexivity; try congruence.
           apply IH. simpl in *. lia.
        -- destruct (w <? 0) eqn:Hw; run.
           ++ loop_leaf.
           ++ step_loop; try reflexivity; try congruence.
              apply IH. simpl in *. lia.
      * split_test (r <? 0).
        destruct (r =? AVERROR_EOF) eqn:Heof; destruct (r =? AVERROR_EAGAIN) eqn:Hag;
          run; try rewrite flush_loop_neg by assumption; run; loop_leaf.
Qed.

(** ** The shape of one [encodeFrame] call *)

Lemma run_bind_ext {B} (dflt : Z) (ev : Z -> Event) (k : Z -> M B) e rs :
  bind (ext dflt ev) k e rs = after [ev (hd dflt rs)] (k (hd dflt rs) e (tl rs)).
Proof. destruct rs; reflexivity. Qed.

Lemma run_ext (dflt : Z) (ev : Z -> Event) e rs :
  ext dflt ev e rs = mkOut (Ok (hd dflt rs)) e (tl rs) [ev (hd dflt rs)].
Proof. destruct rs; reflexivity. Qed.

Lemma bind_Ok {A B} (m : M A) (k : A -> M B) e rs a e1 rs1 evs1 :
  m e rs = mkOut (Ok a) e1 rs1 evs1 ->
  bind m k e rs = after evs1 (k a e1 rs1).
Proof. intros H. unfold bind. now rewrite H. Qed.

Lemma bind_Throw {A B} (m : M A) (k : A -> M B) e rs x e1 rs1 evs1 :
  m e rs = mkOut (Throw x) e1 rs1 evs1 ->
  bind m k e rs = mkOut (Throw x) e1 rs1 evs1.
Proof. intros H. unfold bind. now rewrite H. Qed.

Lemma bind_Undefined {A B} (m : M A) (k : A -> M B) e rs e1 rs1 evs1 :
  m e rs = mkOut Undefined e1 rs1 evs1 ->
  bind m k e rs = mkOut Undefined e1 rs1 evs1.
Proof. intros H. unfold bind. now rewrite H. Qed.

Lemma convert_guarded_fail buffer e rs :
  converter e = true -> (hd 0 rs <? 0) = true ->
  try_catch (convert buffer)
            (fun _ => throw (CxException "Error converting frame")) e rs =
  mkOut (Throw (CxException "Error converting frame")) e (tl rs)
        [EvConvert buffer (hd 0 rs)].
Proof.
  intros Hconv Hc. unfold try_catch, convert. run. rewrite Hconv. run.
  rewrite run_bind_ext, Hc. run. reflexivity.
Qed.

Lemma convert_guarded_ok buffer e rs :
  converter e = true -> (hd 0 rs <? 0) = false ->
  try_catch (convert buffer)
            (fun _ => throw (CxException "Error converting frame")) e rs =
  mkOut (Ok tt) (set_frame (mkFrame buffer (frame_pts (frame e))) e) (tl rs)
        [EvConvert buffer (hd 0 rs)].
Proof.
  intros Hconv Hc. unfold try_catch, convert. run. rewrite Hconv. run.
  rewrite run_bind_ext, Hc. run. reflexivity.
Qed.

Lemma convert_guarded_null buffer e rs :
  converter e = false ->
  try_catch (convert buffer)
            (fun _ => throw (CxException "Error converting frame")) e rs =
  mkOut Undefined e rs [].
Proof.
  intros Hconv. unfold try_catch, convert. run. rewrite Hconv. run.
  reflexivity.
Qed.

Lemma encodeFrame_closed buffer e rs :
  isOpen e = false ->
  encodeFrame buffer e rs =
  mkOut (Ok false) e rs [EvCerr "Error in Write Frame: Encoder is not open"].
Proof.
  intros Hopen. unfold encodeFrame, try_catch. run. rewrite Hopen. run.
  reflexivity.
Qed.

Lemma encodeFrame_no_converter buffer e rs :
  isOpen e = true -> converter e = false ->
  encodeFrame buffer e rs = mkOut Undefined e rs [].
Proof.
  intros Hopen Hconv. unfold encodeFrame, try_catch at 1. run.
  rewrite Hopen. run.
  rewrite (bind_Undefined _ _ _ _ _ _ _ (convert_guarded_null buffer e rs Hconv)).
  reflexivity.
Qed.

Lemma encodeFrame_convert_fails buffer e rs :
  isOpen e = true -> converter e = true -> (hd 0 rs <? 0) = true ->
  encodeFrame buffer e rs =
  mkOut (Ok false) e (tl rs)
        [EvConvert buffer (hd 0 rs);
         EvCerr "Error in Write Frame: Error converting frame"].
Proof.
  intros Hopen Hconv Hc. unfold encodeFrame, try_catch at 1. run.
  rewrite Hopen. run.
  rewrite (bind_Throw _ _ _ _ _ _ _ _ (convert_guarded_fail buffer e rs Hconv Hc)).
  run. reflexivity.
Qed.

Lemma encodeFrame_submit_fails buffer e rs :
  isOpen e = true -> converter e = true -> (hd 0 rs <? 0) = false ->
  (hd 0 (tl rs) <? 0) = true ->
  encodeFrame buffer e rs =
  mkOut (Ok false) (stamped buffer e) (tl (tl rs))
        [EvConvert buffer (hd 0 rs);
         EvSendFrame (Some (mkFrame buffer (pts e))) (hd 0 (tl rs));
         EvCerr ("Error in Write Frame: "
                 ++ ("error sending frame to encoder"
                     ++ errorToString (hd 0 (tl rs))))%string].
Proof.
  intros Hopen Hconv Hc Hr. unfold encodeFrame, try_catch at 1. run.
  rewrite Hopen. run.
  rewrite (bind_Ok _ _ _ _ _ _ _ _ (convert_guarded_ok buffer e rs Hconv Hc)).
  run. unfold avcodec_send_frame. rewrite run_bind_ext. run.
  rewrite Hr. run. reflexivity.
Qed.

Lemma encodeFrame_drains buffer e rs :
  isOpen e = true -> converter e = true -> (hd 0 rs <? 0) = false ->
  (hd 0 (tl rs) <? 0) = false ->
  encodeFrame buffer e rs =
  after [EvConvert buffer (hd 0 rs);
         EvSendFrame (Some (mkFrame buffer (pts e))) (hd 0 (tl rs))]
        (caught (encode_loop (S (List.length (tl (tl rs)))) (hd 0 (tl rs))
                             (stamped buffer e) (tl (tl rs)))).
Proof.
  intros Hopen Hconv Hc Hr. unfold encodeFrame, try_catch at 1. run.
  rewrite Hopen. run.
  rewrite (bind_Ok _ _ _ _ _ _ _ _ (convert_guarded_ok buffer e rs Hconv Hc)).
  run. unfold avcodec_send_frame. rewrite run_bind_ext. run.
  rewrite Hr. run. unfold bind, stamped.
  cbn [set_frame set_pts converter formatCtx codecCtx hwDeviceCtx hwFramesCtx
       stream packet properties pts frame frame_data].
  destruct (encode_loop _ _ _ _) as [[[]|x| |] e2 rs3 evs3];
    cbn; rewrite ?app_nil_r; try reflexivity.
Qed.

(** ** The shape of one [finalize] call *)

Lemma finalize_closed e rs :
  isOpen e = false -> finalize e rs = mkOut (Ok false) e rs [].
Proof.
  intros Hopen. unfold finalize. run. rewrite Hopen. run. reflexivity.
Qed.

Lemma finalize_submit_fails e rs :
  isOpen e = true -> (hd 0 rs <? 0) = true ->
  finalize e rs =
  mkOut (Throw (CxException "Error sending flush frame to encoder")) e (tl rs)
        [EvSendFrame None (hd 0 rs)].
Proof.
  intros Hopen Hr. unfold finalize, avcodec_send_frame. run.
  rewrite Hopen. run. rewrite run_bind_ext. run. rewrite Hr. run.
  reflexivity.
Qed.

Lemma finalize_drains e rs :
  isOpen e = true -> (hd 0 rs <? 0) = false ->
  finalize e rs =
  after [EvSendFrame None (hd 0 rs)]
        (trailer (flush_loop (S (List.length (tl rs))) (hd 0 rs) e (tl rs))).
Proof.
  intros Hopen Hr. unfold finalize, avcodec_send_frame, av_write_trailer. run.
  rewrite Hopen. run. rewrite run_bind_ext. run. rewrite Hr. run.
  unfold bind at 1.
  destruct (flush_loop _ _ _ _) as [[[]|x| |] e2 rs3 evs3];
    cbn [trailer after]; try reflexivity.
  rewrite run_bind_ext.
  destruct (hd 0 rs3 <? 0); run; rewrite ?app_nil_r; reflexivity.
Qed.

(** ** Observations and framing instances *)

Lemma stamps_app l1 l2 : stamps (l1 ++ l2) = stamps l1 ++ stamps l2.
Proof.
  induction l1 as [|ev l1 IH]; [reflexivity|].
  destruct ev as [| | [f|] r | | | | | | | | | | | | | | | | | | | | |];
    simpl; rewrite IH; reflexivity.
Qed.

Lemma stamps_quiet l : forallb not_stamp l = true -> stamps l = [].
Proof.
  induction l as [|ev l IH]; [reflexivity|]. simpl.
  intros H. apply andb_true_iff in H. destruct H as [Hev Hl].
  destruct ev as [| | [f|] r | | | | | | | | | | | | | | | | | | | | |];
    simpl in *; try discriminate; auto.
Qed.

Lemma cerr_quiet l : forallb not_stamp l = true -> existsb is_cerr l = false.
Proof.
  induction l as [|ev l IH]; [reflexivity|]. simpl.
  intros H. apply andb_true_iff in H. destruct H as [Hev Hl].
  rewrite (IH Hl). destruct ev as [| | [f|] r | | | | | | | | | | | | | | | | | | | | |];
    simpl in *; try discriminate; reflexivity.
Qed.

Lemma same_pts_packet v e : same_pts e (set_packet v e).
Proof. reflexivity. Qed.

Lemma same_open_packet v e : same_open e (set_packet v e).
Proof. reflexivity. Qed.

Lemma relay_not_stamp ev : is_relay ev = true -> not_stamp ev = true.
Proof. destruct ev as [| | [f|] r | | | | | | | | | | | | | | | | | | | | |]; simpl; congruence. Qed.

Lemma relay_any ev : is_relay ev = true -> any_event ev = true.
Proof. reflexivity. Qed.

(** The drain loop of [encodeFrame] neither stamps nor reports. *)
Lemma encode_loop_quiet fuel ret0 : framed same_pts not_stamp (encode_loop fuel ret0).
Proof.
  apply framed_encode_loop;
    [typeclasses eauto | apply same_pts_packet | apply relay_not_stamp].
Qed.

Lemma finalize_quiet : framed same_pts not_stamp finalize.
Proof.
  apply framed_finalize;
    [typeclasses eauto | apply same_pts_packet | apply relay_not_stamp
    | reflexivity | reflexivity].
Qed.

Lemma finalize_same_open : framed same_open any_event finalize.
Proof.
  apply framed_finalize;
    [typeclasses eauto | apply same_open_packet | apply relay_any
    | reflexivity | reflexivity].
Qed.

Lemma encodeFrame_same_open buffer : framed same_open any_event (encodeFrame buffer).
Proof.
  unfold encodeFrame, convert, avcodec_send_frame.
  framing; try reflexivity.
  apply framed_encode_loop;
    [typeclasses eauto | apply same_open_packet | apply relay_any].
Qed.

(** ** The shape of [close] *)

Lemma close_shape e rs :
  close e rs =
  match finalize e rs with
  | mkOut (Ok _) e1 rs1 evs1 =>
      mkOut (Ok tt) (released e1) rs1 (evs1 ++ teardown_events e1)
  | mkOut (Throw x) e1 rs1 evs1 => mkOut (Throw x) e1 rs1 evs1
  | mkOut Undefined e1 rs1 evs1 => mkOut Undefined e1 rs1 evs1
  | mkOut OutOfFuel e1 rs1 evs1 => mkOut OutOfFuel e1 rs1 evs1
  end.
Proof.
  unfold close. unfold bind at 1.
  destruct (finalize e rs) as [[b|x| |] e1 rs1 evs1]; try reflexivity.
  unfold reset_codecCtx, reset_formatCtx, reset_hwDeviceCtx, reset_hwFramesCtx,
    teardown_events, released.
  run.
  destruct e1 as [cv [fc|] [cc|] [hd|] [hf|] st [pk|] pr t fr]; run;
    repeat rewrite <- app_assoc; rewrite ?app_nil_r; reflexivity.
Qed.

Lemma released_closed e : isOpen (released e) = false.
Proof. reflexivity. Qed.

Lemma released_idem e : released (released e) = released e.
Proof. reflexivity. Qed.

Lemma teardown_released e : teardown_events (released e) = [].
Proof. reflexivity. Qed.

(** Once [close] has returned the encoder is not open. *)
Lemma close_closes e rs :
  o_res (close e rs) = Ok tt -> isOpen (o_enc (close e rs)) = false.
Proof.
  rewrite close_shape.
  destruct (finalize e rs) as [[b|x| |] e1 rs1 evs1]; simpl; try discriminate.
  intros _. apply released_closed.
Qed.

(** [close] on an encoder that is not open raises nothing, calls nothing
    but the release of what is still held, and a second [close] changes
    nothing at all. *)
Lemma close_not_open e rs :
  isOpen e = false ->
  close e rs = mkOut (Ok tt) (released e) rs (teardown_events e).
Proof.
  intros Hopen. rewrite close_shape, (finalize_closed e rs Hopen). reflexivity.
Qed.

Lemma close_twice e rs :
  isOpen e = false ->
  close (released e) rs = mkOut (Ok tt) (released e) rs [].
Proof.
  intros Hopen. rewrite close_not_open by apply released_closed.
  reflexivity.
Qed.

(** ** Calls on a session that is not open *)

(** C10: [encodeFrame] on an encoder that is not open returns false, raises
    nothing, consumes nothing from the world and leaves every member,
    the timestamp counter included, as it was; the only effect is the
    diagnostic.  An encoder is not open when it was never initialized,
    after [close] has returned, and after it has been moved from. *)
Theorem encodeFrame_not_open :
  (forall buffer e rs,
      isOpen e = false ->
      encodeFrame buffer e rs =
      mkOut (Ok false) e rs [EvCerr "Error in Write Frame: Encoder is not open"])
  /\ (forall conv, isOpen (fresh conv) = false)
  /\ (forall e rs, o_res (close e rs) = Ok tt -> isOpen (o_enc (close e rs)) = false)
  /\ (forall e, isOpen (snd (move_construct e)) = false)
  /\ (forall e, isOpen (moved_from e) = false).
Proof.
  split; [| split; [| split; [| split]]].
  - intros buffer e rs Hopen. now apply encodeFrame_closed.
  - reflexivity.
  - apply close_closes.
  - reflexivity.
  - reflexivity.
Qed.

(** ** What opens and what closes *)

Lemma initialize_stays_open path props :
  framed stays_open any_event (initialize path props).
Proof.
  unfold initialize, openFile, initHWAccel, initCodecContext, reset_formatCtx,
    reset_codecCtx, FF_CHECK.
  framing; try reflexivity;
    match goal with
    | e : Encoder |- _ =>
        unfold stays_open, isOpen;
        destruct e as [cv [fc|] [cc|] hd hf [st|] pk pr t fr]; simpl;
        congruence
    end.
Qed.

(** C9: [finalize] leaves the result of [isOpen] as it found it, so the
    session still reports open after a successful [finalize]; neither
    [encodeFrame] nor [initialize] closes an open session; a [close] that
    returns leaves [isOpen] false. *)
Theorem finalize_keeps_open :
  (forall e rs, isOpen (o_enc (finalize e rs)) = isOpen e)
  /\ (forall e rs, o_res (finalize e rs) = Ok true ->
                   isOpen (o_enc (finalize e rs)) = true)
  /\ (forall e rs, o_res (close e rs) = Ok tt ->
                   isOpen (o_enc (close e rs)) = false)
  /\ (forall buffer e rs, isOpen (o_enc (encodeFrame buffer e rs)) = isOpen e)
  /\ (forall path props e rs,
         isOpen e = true -> isOpen (o_enc (initialize path props e rs)) = true).
Proof.
  split; [| split; [| split; [| split]]].
  - intros e rs. apply (finalize_same_open e rs).
  - intros e rs Hres. destruct (finalize_same_open e rs) as [Hsame _].
    unfold same_open in Hsame. rewrite Hsame.
    destruct (isOpen e) eqn:Hopen; [reflexivity|].
    rewrite (finalize_closed e rs Hopen) in Hres. discriminate.
  - apply close_closes.
  - intros buffer e rs. apply (encodeFrame_same_open buffer e rs).
  - intros path props e rs. apply (initialize_stays_open path props e rs).
Qed.

(** ** The catch-and-signal boundary of [encodeFrame] *)

Lemma existsb_failure_app l1 l2 :
  existsb is_failure (l1 ++ l2) = existsb is_failure l1 || existsb is_failure l2.
Proof. apply existsb_app. Qed.

(** C6: no exception leaves [encodeFrame]; the call returns false exactly
    when the session is not open or the world reported a failure
    (conversion, submission, receiving a packet, writing a packet), and then
    the last thing it did was to print a diagnostic; a call that returns
    true printed none; the open state is untouched; and with a converter, a
    packet buffer and a stream in place the call does return. *)
Theorem encodeFrame_catches_everything buffer e rs :
  (forall x, o_res (encodeFrame buffer e rs) <> Throw x)
  /\ o_res (encodeFrame buffer e rs) <> OutOfFuel
  /\ isOpen (o_enc (encodeFrame buffer e rs)) = isOpen e
  /\ (o_res (encodeFrame buffer e rs) = Ok false <->
      isOpen e = false \/ existsb is_failure (o_evs (encodeFrame buffer e rs)) = true)
  /\ (o_res (encodeFrame buffer e rs) = Ok false ->
      exists evs msg,
        o_evs (encodeFrame buffer e rs)
        = evs ++ [EvCerr ("Error in Write Frame: " ++ msg)%string])
  /\ (o_res (encodeFrame buffer e rs) = Ok true ->
      existsb is_cerr (o_evs (encodeFrame buffer e rs)) = false)
  /\ (converter e = true -> packet e <> None -> stream e <> None ->
      exists b, o_res (encodeFrame buffer e rs) = Ok b).
Proof.
  pose proof (proj1 (encodeFrame_same_open buffer e rs)) as Hsame.
  unfold same_open in Hsame.
  destruct (isOpen e) eqn:Hopen.
  2:{ rewrite (encodeFrame_closed buffer e rs Hopen) in *. simpl.
      repeat split; try discriminate; auto.
      - intros _. exists [], "Encoder is not open". reflexivity.
      - intros _ _ _. now exists false. }
  destruct (converter e) eqn:Hconv.
  2:{ rewrite (encodeFrame_no_converter buffer e rs Hopen Hconv) in *. simpl.
      repeat split; try discriminate; auto.
      intros [H|H]; discriminate. }
  destruct (hd 0 rs <? 0) eqn:Hc.
  { rewrite (encodeFrame_convert_fails buffer e rs Hopen Hconv Hc) in *.
    cbn [o_res o_enc o_evs existsb is_failure is_cerr orb]. rewrite Hc.
    repeat split; try discriminate; auto.
    - intros _. eexists [_], _. reflexivity.
    - intros _ _ _. now exists false. }
  destruct (hd 0 (tl rs) <? 0) eqn:Hr.
  { rewrite (encodeFrame_submit_fails buffer e rs Hopen Hconv Hc Hr) in *.
    cbn [o_res o_enc o_evs existsb is_failure is_cerr orb]. rewrite Hc, Hr.
    repeat split; try discriminate; auto.
    - intros _. eexists [_; _], _. reflexivity.
    - intros _ _ _. now exists false. }
  rewrite (encodeFrame_drains buffer e rs Hopen Hconv Hc Hr) in *.
  pose proof (encode_loop_ok (S (List.length (tl (tl rs)))) (hd 0 (tl rs))
                (stamped buffer e) (tl (tl rs)) (Nat.lt_succ_diag_r _)) as Hok.
  pose proof (proj2 (encode_loop_quiet (S (List.length (tl (tl rs)))) (hd 0 (tl rs))
                (stamped buffer e) (tl (tl rs)))) as Hquiet.
  destruct (encode_loop _ _ _ _) as [res e1 rs1 evs1].
  destruct Hok as [Hfuel _ Hfail _ _ Hdef].
  cbn [o_res o_enc o_evs] in *.
  apply cerr_quiet in Hquiet.
  destruct res as [[]|x| |];
    cbn [caught after o_res o_enc o_evs app existsb is_failure is_cerr orb];
    rewrite ?Hc, ?Hr; cbn [orb].
  - simpl in Hsame. repeat split; try discriminate; auto.
    + intros [H|H]; [discriminate|]. apply Hfail in H. destruct H; discriminate.
    + intros _ _ _. now exists true.
  - simpl in Hsame. rewrite existsb_failure_app.
    assert (Hf : existsb is_failure evs1 = true) by (apply Hfail; now exists x).
    rewrite Hf. repeat split; try discriminate; auto.
    + intros _. eexists (_ :: _ :: evs1), _. reflexivity.
    + intros _ _ _. now exists false.
  - simpl in Hsame. repeat split; try discriminate; auto.
    + intros [H|H]; [discriminate|]. apply Hfail in H. destruct H; discriminate.
    + intros _ Hp Hs. exfalso. apply Hdef; auto.
      unfold isOpen in Hopen. simpl.
      destruct (formatCtx e); [|discriminate].
      destruct (codecCtx e); [discriminate|discriminate].
  - exfalso. now apply Hfuel.
Qed.

(** ** Stamping *)

Lemma caught_stamps (l : list Event) (o : Out unit) :
  forallb not_stamp (o_evs o) = true ->
  stamps (o_evs (after l (caught o))) = stamps l
  /\ pts (o_enc (after l (caught o))) = pts (o_enc o).
Proof.
  intros Hq. apply stamps_quiet in Hq.
  destruct o as [[[]|x| |] e1 rs1 evs1]; simpl in *;
    rewrite ?stamps_app, Hq, ?app_nil_r; auto.
Qed.

(** Once the conversion has succeeded the frame is stamped with the
    counter, and the counter moves on by one, whatever happens next. *)
Lemma encodeFrame_stamps_once buffer e rs :
  isOpen e = true -> converter e = true -> (hd 0 rs <? 0) = false ->
  stamps (o_evs (encodeFrame buffer e rs)) = [pts e]
  /\ pts (o_enc (encodeFrame buffer e rs)) = wrap64 (pts e + 1).
Proof.
  intros Hopen Hconv Hc.
  destruct (hd 0 (tl rs) <? 0) eqn:Hr.
  - rewrite (encodeFrame_submit_fails buffer e rs Hopen Hconv Hc Hr).
    split; reflexivity.
  - rewrite (encodeFrame_drains buffer e rs Hopen Hconv Hc Hr).
    destruct (encode_loop_quiet (S (List.length (tl (tl rs)))) (hd 0 (tl rs))
                (stamped buffer e) (tl (tl rs))) as [Hpts Hq].
    destruct (caught_stamps
                [EvConvert buffer (hd 0 rs);
                 EvSendFrame (Some (mkFrame buffer (pts e))) (hd 0 (tl rs))]
                _ Hq) as [Hs Hp].
    rewrite Hs, Hp, Hpts. split; reflexivity.
Qed.

(** Otherwise nothing is stamped and the counter stays. *)
Lemma encodeFrame_stamps_none buffer e rs :
  isOpen e = false \/ converter e = false \/ (hd 0 rs <? 0) = true ->
  stamps (o_evs (encodeFrame buffer e rs)) = []
  /\ pts (o_enc (encodeFrame buffer e rs)) = pts e.
Proof.
  intros H.
  destruct (isOpen e) eqn:Hopen.
  2:{ rewrite (encodeFrame_closed buffer e rs Hopen). split; reflexivity. }
  destruct (converter e) eqn:Hconv.
  2:{ rewrite (encodeFrame_no_converter buffer e rs Hopen Hconv).
      split; reflexivity. }
  destruct H as [H|[H|H]]; try discriminate.
  rewrite (encodeFrame_convert_fails buffer e rs Hopen Hconv H).
  split; reflexivity.
Qed.

(** C1: when the converter fails, [encodeFrame] returns false having
    done nothing but call the converter and print the diagnostic: the
    encoder, its timestamp counter included, is as before and no frame went
    to the codec.  The next call whose conversion succeeds stamps its frame
    with the very timestamp the failed call would have used, and the
    counter moves on from there. *)
Theorem encodeFrame_convert_failure buffer e c rs :
  isOpen e = true -> converter e = true -> c < 0 ->
  encodeFrame buffer e (c :: rs)
  = mkOut (Ok false) e rs
          [EvConvert buffer c;
           EvCerr "Error in Write Frame: Error converting frame"]
  /\ pts (o_enc (encodeFrame buffer e (c :: rs))) = pts e
  /\ stamps (o_evs (encodeFrame buffer e (c :: rs))) = []
  /\ forall buffer' c' rs',
       0 <= c' ->
       stamps (o_evs (encodeFrame buffer' (o_enc (encodeFrame buffer e (c :: rs)))
                                  (c' :: rs')))
       = [pts e]
       /\ stamps (o_evs (encodeFrame buffer' e (c' :: rs'))) = [pts e]
       /\ pts (o_enc (encodeFrame buffer' (o_enc (encodeFrame buffer e (c :: rs)))
                                  (c' :: rs')))
          = wrap64 (pts e + 1).
Proof.
  intros Hopen Hconv Hc.
  assert (Hcb : (hd 0 (c :: rs) <? 0) = true) by (apply Z.ltb_lt; exact Hc).
  rewrite (encodeFrame_convert_fails buffer e (c :: rs) Hopen Hconv Hcb).
  cbn [hd tl o_enc o_evs].
  repeat split.
  all: intros; 
    assert (Hcb' : (hd 0 (c' :: rs') <? 0) = false) by (apply Z.ltb_ge; assumption);
    apply (encodeFrame_stamps_once buffer' e (c' :: rs') Hopen Hconv Hcb').
Qed.

(** ** The packet buffer *)

Lemma existsb_write_app l1 l2 :
  existsb is_write (l1 ++ l2) = existsb is_write l1 || existsb is_write l2.
Proof. apply existsb_app. Qed.

Ltac packet_cases evs Hunref Hbl :=
  repeat split; auto;
  first
    [ rewrite <- (app_nil_r evs); apply Hunref; reflexivity
    | apply Hunref; reflexivity
    | intros Hne Hblank; apply Hbl; [discriminate | exact Hblank]
    | intros Hne; exfalso; apply Hne; reflexivity ].

Lemma encodeFrame_packet buffer e rs :
  unref_follows_write (o_evs (encodeFrame buffer e rs)) = true
  /\ (existsb is_write (o_evs (encodeFrame buffer e rs)) = true ->
      packet_unreferenced (o_enc (encodeFrame buffer e rs)) = true)
  /\ (o_res (encodeFrame buffer e rs) <> Undefined ->
      packet_unreferenced e = true ->
      packet_unreferenced (o_enc (encodeFrame buffer e rs)) = true).
Proof.
  destruct (isOpen e) eqn:Hopen.
  2:{ rewrite (encodeFrame_closed buffer e rs Hopen). simpl.
      repeat split; auto; discriminate. }
  destruct (converter e) eqn:Hconv.
  2:{ rewrite (encodeFrame_no_converter buffer e rs Hopen Hconv). simpl.
      repeat split; auto; discriminate. }
  destruct (hd 0 rs <? 0) eqn:Hc.
  { rewrite (encodeFrame_convert_fails buffer e rs Hopen Hconv Hc). simpl.
    repeat split; auto; discriminate. }
  destruct (hd 0 (tl rs) <? 0) eqn:Hr.
  { rewrite (encodeFrame_submit_fails buffer e rs Hopen Hconv Hc Hr). simpl.
    repeat split; auto; discriminate. }
  rewrite (encodeFrame_drains buffer e rs Hopen Hconv Hc Hr).
  pose proof (encode_loop_ok (S (List.length (tl (tl rs)))) (hd 0 (tl rs))
                (stamped buffer e) (tl (tl rs)) (Nat.lt_succ_diag_r _)) as Hok.
  destruct (encode_loop _ _ _ _) as [res e1 rs1 evs1].
  destruct Hok as [_ Hunref _ Hwr Hbl _].
  cbn [o_res o_enc o_evs] in *.
  change (packet_unreferenced (stamped buffer e)) with (packet_unreferenced e) in Hbl.
  destruct res as [[]|x| |];
    cbn [caught after o_res o_enc o_evs app existsb is_write orb
         unref_follows_write];
    rewrite ?existsb_write_app; cbn [existsb is_write orb]; rewrite ?orb_false_r.
  all: packet_cases evs1 Hunref Hbl.
Qed.

Lemma finalize_packet e rs :
  unref_follows_write (o_evs (finalize e rs)) = true
  /\ (existsb is_write (o_evs (finalize e rs)) = true ->
      packet_unreferenced (o_enc (finalize e rs)) = true)
  /\ (o_res (finalize e rs) <> Undefined ->
      packet_unreferenced e = true ->
      packet_unreferenced (o_enc (finalize e rs)) = true).
Proof.
  destruct (isOpen e) eqn:Hopen.
  2:{ rewrite (finalize_closed e rs Hopen). simpl.
      repeat split; auto; discriminate. }
  destruct (hd 0 rs <? 0) eqn:Hr.
  { rewrite (finalize_submit_fails e rs Hopen Hr). simpl.
    repeat split; auto; discriminate. }
  rewrite (finalize_drains e rs Hopen Hr).
  pose proof (flush_loop_ok (S (List.length (tl rs))) (hd 0 rs) e (tl rs)
                (Nat.lt_succ_diag_r _)) as Hok.
  destruct (flush_loop _ _ _ _) as [res e1 rs1 evs1].
  destruct Hok as [_ Hunref _ Hwr Hbl _].
  cbn [o_res o_enc o_evs] in *.
  destruct res as [[]|x| |];
    cbn [trailer after o_res o_enc o_evs app existsb is_write orb
         unref_follows_write];
    rewrite ?existsb_write_app; cbn [existsb is_write orb]; rewrite ?orb_false_r.
  all: packet_cases evs1 Hunref Hbl.
Qed.

(** C8: in the events of [encodeFrame] and of [finalize] every write
    attempt, whatever it returned, is directly followed by the release of
    the packet, before anything else happens; once a write has been
    attempted the packet is unreferenced when the call ends; and a packet
    that was unreferenced at the call is unreferenced when the call
    returns or raises. *)
Theorem packet_released_after_every_write buffer e rs :
  (unref_follows_write (o_evs (encodeFrame buffer e rs)) = true
   /\ (existsb is_write (o_evs (encodeFrame buffer e rs)) = true ->
       packet_unreferenced (o_enc (encodeFrame buffer e rs)) = true)
   /\ (o_res (encodeFrame buffer e rs) <> Undefined ->
       packet_unreferenced e = true ->
       packet_unreferenced (o_enc (encodeFrame buffer e rs)) = true))
  /\ (unref_follows_write (o_evs (finalize e rs)) = true
      /\ (existsb is_write (o_evs (finalize e rs)) = true ->
          packet_unreferenced (o_enc (finalize e rs)) = true)
      /\ (o_res (finalize e rs) <> Undefined ->
          packet_unreferenced e = true ->
          packet_unreferenced (o_enc (finalize e rs)) = true)).
Proof.
  split; [apply encodeFrame_packet | apply finalize_packet].
Qed.

(** ** The contract of [finalize] *)

#[local] Instance any_encoder_pre : PreOrder any_encoder.
Proof. split; unfold any_encoder; [intros e | intros a b c]; auto. Qed.

Lemma flush_loop_relays fuel ret0 e rs :
  forallb is_relay (o_evs (flush_loop fuel ret0 e rs)) = true.
Proof.
  apply (framed_flush_loop any_encoder is_relay); [|auto].
  intros v e0. exact I.
Qed.

Lemma relay_no_trailer l t :
  forallb is_relay l = true -> ~ In (EvWriteTrailer t) l.
Proof.
  intros Hl Hin. rewrite forallb_forall in Hl. apply Hl in Hin. discriminate.
Qed.

(** C7: on a session that is not open [finalize] returns false and does
    nothing else.  On an open session it never returns false; it raises
    exactly when the world reported a failure (rejecting the end-of-input
    submission, failing to deliver or to write a packet, failing to write
    the trailer); it returns true exactly when the trailer was written with
    success; and with a packet buffer and a stream in place it does one or
    the other. *)
Theorem finalize_contract e rs :
  (isOpen e = false -> finalize e rs = mkOut (Ok false) e rs [])
  /\ (isOpen e = true ->
      o_res (finalize e rs) <> Ok false
      /\ o_res (finalize e rs) <> OutOfFuel
      /\ (existsb is_failure (o_evs (finalize e rs)) = true <->
          exists x, o_res (finalize e rs) = Throw x)
      /\ (o_res (finalize e rs) = Ok true <->
          exists t, In (EvWriteTrailer t) (o_evs (finalize e rs)) /\ 0 <= t)
      /\ (packet e <> None -> stream e <> None ->
          o_res (finalize e rs) <> Undefined)).
Proof.
  split; [apply finalize_closed|]. intros Hopen.
  destruct (hd 0 rs <? 0) eqn:Hr.
  { rewrite (finalize_submit_fails e rs Hopen Hr).
    cbn [o_res o_evs existsb is_failure orb]. rewrite Hr.
    repeat split; try discriminate; auto.
    - intros _. eexists. reflexivity.
    - intros [t [[Hin|[]] _]]. discriminate. }
  rewrite (finalize_drains e rs Hopen Hr).
  pose proof (flush_loop_ok (S (List.length (tl rs))) (hd 0 rs) e (tl rs)
                (Nat.lt_succ_diag_r _)) as Hok.
  pose proof (flush_loop_relays (S (List.length (tl rs))) (hd 0 rs) e (tl rs))
    as Hrel.
  destruct (flush_loop _ _ _ _) as [res e1 rs1 evs1].
  destruct Hok as [Hfuel _ Hfail _ _ Hdef].
  cbn [o_res o_enc o_evs] in *.
  assert (Hcc : codecCtx e <> None).
  { unfold isOpen in Hopen. destruct (formatCtx e); [|discriminate].
    destruct (codecCtx e); discriminate. }
  destruct res as [[]|x| |];
    cbn [trailer after o_res o_enc o_evs app existsb is_failure orb];
    rewrite ?Hr; cbn [orb].
  - rewrite existsb_failure_app. cbn [existsb is_failure orb].
    rewrite orb_false_r.
    assert (Hnf : existsb is_failure evs1 = false).
    { destruct (existsb is_failure evs1); [|reflexivity].
      destruct (proj1 Hfail eq_refl) as [x Hx]. discriminate. }
    rewrite Hnf. cbn [orb].
    destruct (hd 0 rs1 <? 0) eqn:Ht.
    + repeat split; try discriminate; auto.
      * intros _. eexists. reflexivity.
      * intros [t [[Hin|Hin] Hpos]]; [discriminate|].
        apply in_app_or in Hin. destruct Hin as [Hin|[Hin|[]]].
        -- now apply relay_no_trailer in Hin.
        -- injection Hin as <-. apply Z.ltb_lt in Ht. lia.
    + repeat split; try discriminate; auto.
      * intros [x Hx]. discriminate.
      * intros _. exists (hd 0 rs1). split.
        -- right. apply in_or_app. right. left. reflexivity.
        -- now apply Z.ltb_ge in Ht.
  - assert (Hf : existsb is_failure evs1 = true) by (apply Hfail; now exists x).
    rewrite Hf. repeat split; try discriminate; auto.
    + intros _. eexists. reflexivity.
    + intros [t [[Hin|Hin] _]]; [discriminate|].
      now apply relay_no_trailer in Hin.
  - repeat split; try discriminate; auto.
    + intros Hf. apply Hfail in Hf. destruct Hf; discriminate.
    + intros [x Hx]. discriminate.
    + intros [t [[Hin|Hin] _]]; [discriminate|].
      now apply relay_no_trailer in Hin.
    + intros Hp Hs _. now apply Hdef.
  - exfalso. now apply Hfuel.
Qed.

(** ** The timestamp counter over a whole session *)

Lemma wrap64_id z : in_int64 z -> wrap64 z = z.
Proof.
  unfold in_int64, wrap64. intros Hz.
  rewrite Z.mod_small by lia. lia.
Qed.

Lemma wrap64_range z : in_int64 (wrap64 z).
Proof.
  unfold in_int64, wrap64.
  pose proof (Z.mod_pos_bound (z + 2^63) (2^64) ltac:(lia)). lia.
Qed.

Lemma wrap64_add_l a b : wrap64 (wrap64 a + b) = wrap64 (a + b).
Proof.
  unfold wrap64.
  replace ((a + 2^63) mod 2^64 - 2^63 + b + 2^63)
    with ((a + 2^63) mod 2^64 + b) by lia.
  rewrite Zplus_mod_idemp_l. f_equal. f_equal. lia.
Qed.

Lemma initialize_quiet path props :
  framed same_pts not_stamp (initialize path props).
Proof.
  unfold initialize, openFile, initHWAccel, initCodecContext, reset_formatCtx,
    reset_codecCtx, FF_CHECK.
  framing; try reflexivity;
    match goal with
    | e : Encoder |- _ =>
        unfold same_pts;
        destruct e as [cv fc [cc|] hd hf [st|] pk pr t fr]; reflexivity
    end.
Qed.

Lemma close_quiet : framed same_pts not_stamp close.
Proof.
  unfold close, reset_formatCtx, reset_codecCtx, reset_hwDeviceCtx,
    reset_hwFramesCtx.
  frame_bind; [apply finalize_quiet | intros _].
  framing; reflexivity.
Qed.

Lemma bind_ret_obs {A B} (m : M A) (b : B) e rs :
  o_evs (bind m (fun _ => ret b) e rs) = o_evs (m e rs)
  /\ o_enc (bind m (fun _ => ret b) e rs) = o_enc (m e rs).
Proof.
  unfold bind. destruct (m e rs) as [[a|x| |] e1 rs1 evs1]; simpl;
    rewrite ?app_nil_r; auto.
Qed.

Lemma try_catch_ret_obs {A} (m : M A) (a : A) e rs :
  o_evs (try_catch m (fun _ => ret a) e rs) = o_evs (m e rs)
  /\ o_enc (try_catch m (fun _ => ret a) e rs) = o_enc (m e rs).
Proof.
  unfold try_catch. destruct (m e rs) as [[a'|x| |] e1 rs1 evs1]; simpl;
    rewrite ?app_nil_r; auto.
Qed.

(** One call of the caller stamps at most one frame, with the counter. *)
Lemma call_stamps c e rs :
  (stamps (o_evs (try_catch (call c) (fun _ => ret tt) e rs)) = []
   /\ pts (o_enc (try_catch (call c) (fun _ => ret tt) e rs)) = pts e)
  \/ (stamps (o_evs (try_catch (call c) (fun _ => ret tt) e rs)) = [pts e]
      /\ pts (o_enc (try_catch (call c) (fun _ => ret tt) e rs))
         = wrap64 (pts e + 1)).
Proof.
  destruct (try_catch_ret_obs (call c) tt e rs) as [-> ->].
  destruct c as [path props|buffer| |]; cbn [call].
  - left. destruct (initialize_quiet path props e rs) as [Hp Hq].
    split; [now apply stamps_quiet | exact Hp].
  - destruct (bind_ret_obs (encodeFrame buffer) tt e rs) as [-> ->].
    destruct (isOpen e) eqn:Hopen;
      [destruct (converter e) eqn:Hconv;
       [destruct (hd 0 rs <? 0) eqn:Hc|]|].
    + left. apply encodeFrame_stamps_none. auto.
    + right. now apply encodeFrame_stamps_once.
    + left. apply encodeFrame_stamps_none. auto.
    + left. apply encodeFrame_stamps_none. auto.
  - left. destruct (bind_ret_obs finalize tt e rs) as [-> ->].
    destruct (finalize_quiet e rs) as [Hp Hq].
    split; [now apply stamps_quiet | exact Hp].
  - left. destruct (close_quiet e rs) as [Hp Hq].
    split; [now apply stamps_quiet | exact Hp].
Qed.

Lemma stamps_shift (p : Z) (n : nat) :
  in_int64 p ->
  p :: map (fun i => wrap64 (wrap64 (p + 1) + Z.of_nat i)) (seq 0 n)
  = map (fun i => wrap64 (p + Z.of_nat i)) (seq 0 (S n)).
Proof.
  intros Hp. cbn [seq map]. f_equal.
  - rewrite Z.add_0_r. symmetry. now apply wrap64_id.
  - rewrite <- seq_shift, map_map. apply map_ext. intros i.
    rewrite wrap64_add_l. f_equal. lia.
Qed.

Lemma calls_stamps cs :
  forall e rs,
    in_int64 (pts e) ->
    exists n,
      (n <= List.length cs)%nat
      /\ stamps (o_evs (calls cs e rs))
         = map (fun i => wrap64 (pts e + Z.of_nat i)) (seq 0 n)
      /\ pts (o_enc (calls cs e rs)) = wrap64 (pts e + Z.of_nat n).
Proof.
  induction cs as [|c cs IH]; intros e rs Hin.
  - exists O. cbn. rewrite Z.add_0_r, wrap64_id by assumption. auto.
  - cbn [calls]. unfold bind.
    pose proof (call_stamps c e rs) as Hcall.
    destruct (try_catch (call c) (fun _ => ret tt) e rs) as [res e1 rs1 evs1].
    cbn [o_evs o_enc] in Hcall.
    destruct Hcall as [[Hs Hp]|[Hs Hp]].
    + assert (Hin1 : in_int64 (pts e1)) by now rewrite Hp.
      destruct res as [[]|x| |]; cbn [o_evs o_enc];
        try (exists O; cbn; rewrite Z.add_0_r, wrap64_id by assumption;
             repeat split; [lia | assumption | assumption]).
      destruct (IH e1 rs1 Hin1) as [n [Hn [Hst Hpt]]].
      destruct (calls cs e1 rs1) as [res2 e2 rs2 evs2].
      cbn [after o_evs o_enc] in *.
      exists n. rewrite stamps_app, Hs, Hst, Hpt, Hp. cbn [app].
      repeat split; auto. cbn [List.length]. lia.
    + assert (Hin1 : in_int64 (pts e1)) by (rewrite Hp; apply wrap64_range).
      destruct res as [[]|x| |]; cbn [o_evs o_enc];
        try (exists 1%nat; cbn; rewrite Z.add_0_r, wrap64_id by assumption;
             repeat split; [lia | assumption | assumption]).
      destruct (IH e1 rs1 Hin1) as [n [Hn [Hst Hpt]]].
      destruct (calls cs e1 rs1) as [res2 e2 rs2 evs2].
      cbn [after o_evs o_enc] in *.
      exists (S n). rewrite stamps_app, Hs, Hst, Hpt, Hp. cbn [app].
      repeat split.
      * cbn [List.length]. lia.
      * now apply stamps_shift.
      * rewrite wrap64_add_l. f_equal. lia.
Qed.

(** C2: over the whole life of an encoder, from its construction and
    through any sequence of [initialize], [encodeFrame], [finalize] and
    [close] calls, whatever the world answers (so whatever number of packets
    each call drains), the frames submitted to the codec carry the
    timestamps 0, 1, 2, ... in this order, and the counter equals the number
    of frames submitted: it is incremented once per submission and never
    reset.  The bound keeps the 64-bit counter from wrapping. *)
Theorem session_stamps_count_up conv cs rs :
  Z.of_nat (List.length cs) < 2^63 ->
  exists n,
    (n <= List.length cs)%nat
    /\ stamps (o_evs (session conv cs rs)) = map Z.of_nat (seq 0 n)
    /\ pts (o_enc (session conv cs rs)) = Z.of_nat n.
Proof.
  intros Hlen. unfold session, Encoder_ctor. run. rewrite run_bind_ext.
  destruct (hd 1 rs =? 0) eqn:Hp; run.
  - exists O. cbn. repeat split. lia.
  - match goal with
    | |- context [calls cs ?e ?rs'] =>
        destruct (calls_stamps cs e rs') as [n [Hn [Hst Hpt]]];
        [cbn; unfold in_int64; lia|];
        destruct (calls cs e rs') as [res2 e2 rs2 evs2]
    end.
    cbn [after o_evs o_enc stamps app pts] in *.
    exists n. split; [exact Hn|]. split.
    + rewrite Hst. apply map_ext_in. intros i Hi. apply in_seq in Hi.
      rewrite Z.add_0_l. apply wrap64_id. unfold in_int64. lia.
    + rewrite Hpt, Z.add_0_l. apply wrap64_id. unfold in_int64. lia.
Qed.

(** ** Failures of [initialize] *)

Ltac init_leaf Hcc :=
  unfold init_ok, isOpen;
  cbn [o_res o_enc o_evs app existsb is_init_failure codec_allocated
       orb negb converter formatCtx codecCtx hwDeviceCtx hwFramesCtx stream
       packet properties pts frame set_formatCtx set_codecCtx set_hwDeviceCtx
       set_hwFramesCtx set_stream set_packet set_properties set_pts set_frame];
  repeat match goal with
         | H : (_ =? _) = _ |- _ => rewrite H
         | H : (_ <? _) = _ |- _ => rewrite H
         end;
  rewrite ?Hcc; cbn [orb negb];
  repeat split; intros; eauto; try discriminate;
  try (destruct (formatCtx _); reflexivity);
  try match goal with
      | H : exists _, _ |- _ => destruct H; discriminate
      end.

Ltac init_go Hcc :=
  repeat (progress (run; rewrite ?run_bind_ext, ?Hcc));
  lazymatch goal with
  | |- context [match formatCtx ?e with _ => _ end] =>
      destruct (formatCtx e) eqn:?; init_go Hcc
  | |- context [if ?b then _ else _] =>
      let H := fresh "Ht" in destruct b eqn:H; init_go Hcc
  | _ => solve [init_leaf Hcc]
  end.

Lemma initialize_outcome path props e rs :
  codecCtx e = None -> init_ok (initialize path props e rs).
Proof.
  intros Hcc.
  unfold initialize, openFile, initHWAccel, initCodecContext, reset_formatCtx,
    reset_codecCtx, FF_CHECK.
  init_go Hcc.
Qed.

(** C5 (amended): every run of [initialize] on an encoder that holds no
    codec context returns or raises; it raises exactly when one of its
    steps failed (format-context allocation, file open, codec lookup,
    codec-context allocation, opening the codec, stream allocation,
    parameter copy, header write); and afterwards [isOpen] reports true
    exactly when the codec context had been allocated, so false after a
    failure up to the codec-context allocation and true after a failure
    at any later step. *)
Theorem initialize_failure_raises path props e rs :
  codecCtx e = None ->
  (o_res (initialize path props e rs) = Ok tt
   \/ exists x, o_res (initialize path props e rs) = Throw x)
  /\ (existsb is_init_failure (o_evs (initialize path props e rs)) = true <->
      exists x, o_res (initialize path props e rs) = Throw x)
  /\ isOpen (o_enc (initialize path props e rs))
     = existsb codec_allocated (o_evs (initialize path props e rs)).
Proof.
  intros Hcc. exact (initialize_outcome path props e rs Hcc).
Qed.

(** ** Two defects, on concrete runs *)

(** In the flush loop a "need more input" answer ends the loop: nothing
    more is asked of the codec. *)
Lemma flush_loop_ends_at_EAGAIN fuel e pk rs :
  packet e = Some pk ->
  flush_loop (S fuel) 0 e (AVERROR_EAGAIN :: rs)
  = mkOut (Ok tt) e rs [EvReceivePacket AVERROR_EAGAIN].
Proof.
  intros Hpk. rewrite flush_loop_S. unfold avcodec_receive_packet. run.
  rewrite Hpk. run. rewrite flush_loop_neg by reflexivity. run. reflexivity.
Qed.

(** C3: the codec answers the first request of the drain with "need more
    input".  [finalize] does not ask again: the [continue] lands on the
    loop test [ret >= 0], which the negative answer fails, so the trailer
    is written next and whatever the codec still holds stays there. *)
Theorem finalize_stops_at_EAGAIN (t : Z) (rs : list Z) :
  finalize opened (0 :: AVERROR_EAGAIN :: t :: rs)
  = mkOut (if t <? 0
           then Throw (CxException "Error writing trailer to output file")
           else Ok true)
          opened rs
          [EvSendFrame None 0; EvReceivePacket AVERROR_EAGAIN; EvWriteTrailer t].
Proof.
  rewrite finalize_drains by reflexivity.
  cbn [hd tl]. rewrite flush_loop_S.
  vm_compute. destruct t; reflexivity.
Qed.

(** C4: [close] has no handler around its call to [finalize].  On an open
    session whose codec rejects the end-of-input submission -- as a codec
    does that has been flushed already, so in particular after a successful
    [finalize] -- the exception of [finalize] leaves [close], and so leaves
    the destructor; nothing is released and the session stays open. *)
Theorem close_raises_after_finalize :
  (forall rs,
      close opened (AVERROR_EOF :: rs)
      = mkOut (Throw (CxException "Error sending flush frame to encoder"))
              opened rs [EvSendFrame None AVERROR_EOF])
  /\ (finalize ;; close) opened [0; AVERROR_EOF; 0; AVERROR_EOF]
     = mkOut (Throw (CxException "Error sending flush frame to encoder"))
             opened []
             [EvSendFrame None 0; EvReceivePacket AVERROR_EOF; EvWriteTrailer 0;
              EvSendFrame None AVERROR_EOF]
  /\ Encoder_dtor opened [AVERROR_EOF]
     = mkOut (Throw (CxException "Error sending flush frame to encoder"))
             opened [] [EvSendFrame None AVERROR_EOF]
  /\ move_assign (fresh true) opened [AVERROR_EOF]
     = mkOut (Throw (CxException "Error sending flush frame to encoder"))
             opened [] [EvSendFrame None AVERROR_EOF].
Proof.
  split; [|split; [|split]].
  - intros rs. unfold close.
    rewrite (bind_Throw _ _ _ _ _ _ _ _
               (finalize_submit_fails opened (AVERROR_EOF :: rs) eq_refl eq_refl)).
    reflexivity.
  - vm_compute. reflexivity.
  - vm_compute. reflexivity.
  - vm_compute. reflexivity.
Qed.

(** ** One turn of the drain loops *)

Lemma encode_loop_step fuel ret0 e rs pk cc st :
  (ret0 <? 0) = false ->
  packet e = Some pk -> codecCtx e = Some cc -> stream e = Some st ->
  encode_loop (S fuel) ret0 e rs =
  if (hd AVERROR_EAGAIN rs =? AVERROR_EAGAIN) || (hd AVERROR_EAGAIN rs =? AVERROR_EOF)
  then mkOut (Ok tt) e (tl rs) [EvReceivePacket (hd AVERROR_EAGAIN rs)]
  else if hd AVERROR_EAGAIN rs <? 0
  then mkOut (Throw (CxException "Error during encoding")) e (tl rs)
             [EvReceivePacket (hd AVERROR_EAGAIN rs)]
  else if hd 0 (tl rs) <? 0
  then mkOut (Throw (CxException "Error writing packet to output file"))
             (set_packet (Some blank_packet) e) (tl (tl rs))
             [EvReceivePacket (hd AVERROR_EAGAIN rs);
              EvRescaleTs (time_base cc) (st_time_base st);
              EvWriteFrame (mkPacket true (index st)) (hd 0 (tl rs));
              EvPacketUnref]
  else after [EvReceivePacket (hd AVERROR_EAGAIN rs);
              EvRescaleTs (time_base cc) (st_time_base st);
              EvWriteFrame (mkPacket true (index st)) (hd 0 (tl rs));
              EvPacketUnref]
             (encode_loop fuel (hd 0 (tl rs)) (set_packet (Some blank_packet) e)
                          (tl (tl rs))).
Proof.
  intros Hret Hpk Hcc Hst. rewrite encode_loop_S, Hret.
  unfold avcodec_receive_packet, rescale_and_index, av_interleaved_write_frame,
    av_packet_unref.
  run. rewrite Hpk. run. rewrite run_bind_ext.
  set (r := hd AVERROR_EAGAIN rs).
  destruct (0 <=? r) eqn:H0; run.
  - split_test (r =? AVERROR_EAGAIN). split_test (r =? AVERROR_EOF).
    split_test (r <? 0). run. rewrite Hcc, Hst. run. rewrite run_bind_ext.
    destruct (hd 0 (tl rs) <? 0) eqn:Hw; run; reflexivity.
  - split_test (r <? 0).
    destruct (r =? AVERROR_EAGAIN) eqn:Hag; destruct (r =? AVERROR_EOF) eqn:Heof;
      run; reflexivity.
Qed.

Lemma flush_loop_step fuel ret0 e rs pk cc st :
  (ret0 <? 0) = false ->
  packet e = Some pk -> codecCtx e = Some cc -> stream e = Some st ->
  flush_loop (S fuel) ret0 e rs =
  if (hd AVERROR_EOF rs =? AVERROR_EOF) || (hd AVERROR_EOF rs =? AVERROR_EAGAIN)
  then mkOut (Ok tt) e (tl rs) [EvReceivePacket (hd AVERROR_EOF rs)]
  else if hd AVERROR_EOF rs <? 0
  then mkOut (Throw (CxException "Error during encoding flush")) e (tl rs)
             [EvReceivePacket (hd AVERROR_EOF rs)]
  else if hd 0 (tl rs) <? 0
  then mkOut (Throw (CxException "Error writing flushed packet to output file"))
             (set_packet (Some blank_packet) e) (tl (tl rs))
             [EvReceivePacket (hd AVERROR_EOF rs);
              EvRescaleTs (time_base cc) (st_time_base st);
              EvWriteFrame (mkPacket true (index st)) (hd 0 (tl rs));
              EvPacketUnref]
  else after [EvReceivePacket (hd AVERROR_EOF rs);
              EvRescaleTs (time_base cc) (st_time_base st);
              EvWriteFrame (mkPacket true (index st)) (hd 0 (tl rs));
              EvPacketUnref]
             (flush_loop fuel (hd 0 (tl rs)) (set_packet (Some blank_packet) e)
                         (tl (tl rs))).
Proof.
  intros Hret Hpk Hcc Hst. rewrite flush_loop_S, Hret.
  unfold avcodec_receive_packet, rescale_and_index, av_interleaved_write_frame,
    av_packet_unref.
  run. rewrite Hpk. run. rewrite run_bind_ext.
  set (r := hd AVERROR_EOF rs).
  destruct (0 <=? r) eqn:H0; run.
  - split_test (r =? AVERROR_EOF). split_test (r =? AVERROR_EAGAIN).
    split_test (r <? 0). run. rewrite Hcc, Hst. run. rewrite run_bind_ext.
    destruct (hd 0 (tl rs) <? 0) eqn:Hw; run; reflexivity.
  - split_test (r <? 0).
    destruct (r =? AVERROR_EOF) eqn:Heof; destruct (r =? AVERROR_EAGAIN) eqn:Hag;
      run; try rewrite flush_loop_neg by assumption; run; reflexivity.
Qed.

(** ** Relaying packets *)

Lemma rational_eqb_refl a : rational_eqb a a = true.
Proof. unfold rational_eqb. now rewrite !Z.eqb_refl. Qed.

Lemma o_evs_after {A} l (o : Out A) : o_evs (after l o) = l ++ o_evs o.
Proof. destruct o; reflexivity. Qed.

Lemma well_relayed_turn cc st r w l :
  (r <? 0) = false ->
  well_relayed cc st
    ([EvReceivePacket r; EvRescaleTs (time_base cc) (st_time_base st);
      EvWriteFrame (mkPacket true (index st)) w; EvPacketUnref] ++ l)
  = well_relayed cc st l.
Proof.
  intros Hr. cbn [app well_relayed pkt_ref stream_index]. rewrite Hr.
  now rewrite !rational_eqb_refl, Z.eqb_refl.
Qed.

Lemma well_relayed_stop cc st r l :
  (r <? 0) = true ->
  well_relayed cc st ([EvReceivePacket r] ++ l) = well_relayed cc st l.
Proof. intros Hr. cbn [app well_relayed]. now rewrite Hr. Qed.

Lemma break_negative r :
  (r =? AVERROR_EAGAIN) || (r =? AVERROR_EOF) = true -> (r <? 0) = true.
Proof.
  intros H. apply orb_true_iff in H.
  destruct H as [H|H]; apply Z.eqb_eq in H; rewrite H; reflexivity.
Qed.

Lemma encode_loop_relayed cc st fuel :
  forall ret0 e rs pk rest,
    packet e = Some pk -> codecCtx e = Some cc -> stream e = Some st ->
    well_relayed cc st rest = true ->
    well_relayed cc st (o_evs (encode_loop fuel ret0 e rs) ++ rest) = true.
Proof.
  induction fuel as [|fuel IH]; intros ret0 e rs pk rest Hpk Hcc Hst Hrest.
  - rewrite encode_loop_O. destruct (ret0 <? 0); exact Hrest.
  - destruct (ret0 <? 0) eqn:Hret.
    { rewrite encode_loop_neg by assumption. exact Hrest. }
    rewrite (encode_loop_step fuel ret0 e rs pk cc st Hret Hpk Hcc Hst).
    set (r := hd AVERROR_EAGAIN rs).
    destruct ((r =? AVERROR_EAGAIN) || (r =? AVERROR_EOF)) eqn:Hbrk.
    { cbn [o_evs]. rewrite well_relayed_stop; [exact Hrest|].
      now apply break_negative. }
    destruct (r <? 0) eqn:Hr.
    { cbn [o_evs]. now rewrite well_relayed_stop. }
    destruct (hd 0 (tl rs) <? 0) eqn:Hw.
    + cbn [o_evs]. now rewrite well_relayed_turn.
    + rewrite o_evs_after, <- app_assoc, well_relayed_turn by assumption.
      now apply (IH _ _ _ blank_packet).
Qed.

Lemma flush_loop_relayed cc st fuel :
  forall ret0 e rs pk rest,
    packet e = Some pk -> codecCtx e = Some cc -> stream e = Some st ->
    well_relayed cc st rest = true ->
    well_relayed cc st (o_evs (flush_loop fuel ret0 e rs) ++ rest) = true.
Proof.
  induction fuel as [|fuel IH]; intros ret0 e rs pk rest Hpk Hcc Hst Hrest.
  - rewrite flush_loop_O. destruct (ret0 <? 0); exact Hrest.
  - destruct (ret0 <? 0) eqn:Hret.
    { rewrite flush_loop_neg by assumption. exact Hrest. }
    rewrite (flush_loop_step fuel ret0 e rs pk cc st Hret Hpk Hcc Hst).
    set (r := hd AVERROR_EOF rs).
    destruct ((r =? AVERROR_EOF) || (r =? AVERROR_EAGAIN)) eqn:Hbrk.
    { cbn [o_evs]. rewrite well_relayed_stop; [exact Hrest|].
      apply break_negative. now rewrite orb_comm. }
    destruct (r <? 0) eqn:Hr.
    { cbn [o_evs]. now rewrite well_relayed_stop. }
    destruct (hd 0 (tl rs) <? 0) eqn:Hw.
    + cbn [o_evs]. now rewrite well_relayed_turn.
    + rewrite o_evs_after, <- app_assoc, well_relayed_turn by assumption.
      now apply (IH _ _ _ blank_packet).
Qed.

(** X1: with the codec context and the stream in place, every packet that
    [encodeFrame] or [finalize] receives is rescaled from the codec's time
    base to the stream's, tagged with the stream's index, written while it
    holds its payload, and released, before the codec is asked again. *)
Theorem packets_relayed_in_order buffer e rs cc st :
  codecCtx e = Some cc -> stream e = Some st ->
  well_relayed cc st (o_evs (encodeFrame buffer e rs)) = true
  /\ well_relayed cc st (o_evs (finalize e rs)) = true.
Proof.
  intros Hcc Hst. split.
  - destruct (isOpen e) eqn:Hopen.
    2:{ now rewrite (encodeFrame_closed buffer e rs Hopen). }
    destruct (converter e) eqn:Hconv.
    2:{ now rewrite (encodeFrame_no_converter buffer e rs Hopen Hconv). }
    destruct (hd 0 rs <? 0) eqn:Hc.
    { now rewrite (encodeFrame_convert_fails buffer e rs Hopen Hconv Hc). }
    destruct (hd 0 (tl rs) <? 0) eqn:Hr.
    { now rewrite (encodeFrame_submit_fails buffer e rs Hopen Hconv Hc Hr). }
    rewrite (encodeFrame_drains buffer e rs Hopen Hconv Hc Hr).
    rewrite o_evs_after. cbn [app well_relayed].
    destruct (packet e) as [pk|] eqn:Hpk.
    + pose proof (encode_loop_relayed cc st (S (List.length (tl (tl rs))))
                    (hd 0 (tl rs)) (stamped buffer e) (tl (tl rs)) pk) as Hrel.
      destruct (encode_loop _ _ _ _) as [[[]|x| |] e1 rs1 evs1];
        cbn [caught o_evs] in *.
      * rewrite <- (app_nil_r evs1). now apply Hrel.
      * now apply Hrel.
      * rewrite <- (app_nil_r evs1). now apply Hrel.
      * rewrite <- (app_nil_r evs1). now apply Hrel.
    + rewrite encode_loop_S, Hr. unfold avcodec_receive_packet, stamped. run.
      rewrite Hpk. run. reflexivity.
  - destruct (isOpen e) eqn:Hopen.
    2:{ now rewrite (finalize_closed e rs Hopen). }
    destruct (hd 0 rs <? 0) eqn:Hr.
    { now rewrite (finalize_submit_fails e rs Hopen Hr). }
    rewrite (finalize_drains e rs Hopen Hr).
    rewrite o_evs_after. cbn [app well_relayed].
    destruct (packet e) as [pk|] eqn:Hpk.
    + pose proof (flush_loop_relayed cc st (S (List.length (tl rs)))
                    (hd 0 rs) e (tl rs) pk) as Hrel.
      destruct (flush_loop _ _ _ _) as [[[]|x| |] e1 rs1 evs1];
        cbn [trailer o_evs] in *.
      * now apply Hrel.
      * rewrite <- (app_nil_r evs1). now apply Hrel.
      * rewrite <- (app_nil_r evs1). now apply Hrel.
      * rewrite <- (app_nil_r evs1). now apply Hrel.
    + rewrite flush_loop_S, Hr. unfold avcodec_receive_packet. run.
      rewrite Hpk. run. reflexivity.
Qed.

(** ** Where a successful [encodeFrame] stops *)

Lemma ends_idle_after {A} l (o : Out A) : ends_idle o -> ends_idle (after l o).
Proof.
  unfold ends_idle. destruct o as [res e1 rs1 evs1]; cbn [after o_res o_evs].
  intros H Hres. destruct (H Hres) as [evs [r [Hevs Hr]]].
  exists (l ++ evs), r. split; [|exact Hr]. now rewrite Hevs, app_assoc.
Qed.

Ltac idle_leaf :=
  unfold ends_idle; cbn [o_res o_evs];
  first
    [ intros [a Ha]; discriminate
    | intros _; eexists [], _; split; [reflexivity|];
      tests_to_Z; lia ].

Lemma encode_loop_ends fuel :
  forall ret0 e rs,
    (ret0 <? 0) = false -> ends_idle (encode_loop fuel ret0 e rs).
Proof.
  induction fuel as [|fuel IH]; intros ret0 e rs Hret.
  - rewrite encode_loop_O, Hret. idle_leaf.
  - rewrite encode_loop_S, Hret.
    unfold avcodec_receive_packet, rescale_and_index, av_interleaved_write_frame,
      av_packet_unref.
    run.
    destruct (packet e) as [pk|] eqn:Hpk.
    2:{ run. idle_leaf. }
    destruct rs as [|r rs]; run.
    + unfold ends_idle; cbn [o_res o_evs]. intros _.
      exists [], AVERROR_EAGAIN. split; [reflexivity | now left].
    + destruct (0 <=? r) eqn:Hr0; run.
      * split_test (r =? AVERROR_EAGAIN). split_test (r =? AVERROR_EOF).
        split_test (r <? 0). run.
        destruct (codecCtx e) as [cc|] eqn:Hcc; run; [|idle_leaf].
        destruct (stream e) as [st|] eqn:Hst; run; [|idle_leaf].
        destruct rs as [|w rs]; run.
        -- apply ends_idle_after. now apply IH.
        -- destruct (w <? 0) eqn:Hw; run.
           ++ idle_leaf.
           ++ apply ends_idle_after. now apply IH.
      * split_test (r <? 0).
        destruct (r =? AVERROR_EAGAIN) eqn:Hag; destruct (r =? AVERROR_EOF) eqn:Heof;
          run; idle_leaf.
Qed.

(** X2: [encodeFrame] returns true only after the codec has answered that
    it needs more input or has reached the end of the stream: the last
    thing a successful call did was to ask the codec for a packet and to
    get one of these two answers. *)
Theorem encodeFrame_true_means_drained buffer e rs :
  o_res (encodeFrame buffer e rs) = Ok true ->
  exists evs r,
    o_evs (encodeFrame buffer e rs) = evs ++ [EvReceivePacket r]
    /\ (r = AVERROR_EAGAIN \/ r = AVERROR_EOF).
Proof.
  destruct (isOpen e) eqn:Hopen.
  2:{ rewrite (encodeFrame_closed buffer e rs Hopen). discriminate. }
  destruct (converter e) eqn:Hconv.
  2:{ rewrite (encodeFrame_no_converter buffer e rs Hopen Hconv). discriminate. }
  destruct (hd 0 rs <? 0) eqn:Hc.
  { rewrite (encodeFrame_convert_fails buffer e rs Hopen Hconv Hc). discriminate. }
  destruct (hd 0 (tl rs) <? 0) eqn:Hr.
  { rewrite (encodeFrame_submit_fails buffer e rs Hopen Hconv Hc Hr). discriminate. }
  rewrite (encodeFrame_drains buffer e rs Hopen Hconv Hc Hr).
  pose proof (encode_loop_ends (S (List.length (tl (tl rs)))) (hd 0 (tl rs))
                (stamped buffer e) (tl (tl rs)) Hr) as Hend.
  destruct (encode_loop _ _ _ _) as [[[]|x| |] e1 rs1 evs1];
    cbn [caught after o_res o_evs]; try discriminate.
  intros _. destruct Hend as [evs [r [Hevs Hrr]]]; [now exists tt|].
  cbn [o_evs] in Hevs. rewrite Hevs.
  eexists (_ :: _ :: evs), r. split; [reflexivity | exact Hrr].
Qed.

(** ** What the methods leave alone *)

#[local] Instance same_contexts_pre : PreOrder same_contexts.
Proof.
  split; unfold same_contexts.
  - intros e. repeat split.
  - intros a b c [H1 [H2 [H3 [H4 [H5 [H6 H7]]]]]] [G1 [G2 [G3 [G4 [G5 [G6 G7]]]]]].
    repeat split; congruence.
Qed.

#[local] Instance same_work_pre : PreOrder same_work.
Proof.
  split; unfold same_work.
  - intros e. repeat split.
  - intros a b c [H1 [H2 [H3 [H4 [H5 H6]]]]] [G1 [G2 [G3 [G4 [G5 G6]]]]].
    repeat split; congruence.
Qed.

Lemma no_send_none l : forallb no_send l = true -> existsb is_send l = false.
Proof.
  induction l as [|ev l IH]; [reflexivity|]. cbn [forallb existsb].
  intros H. apply andb_true_iff in H. destruct H as [Hev Hl].
  rewrite (IH Hl). unfold no_send in Hev. now destruct (is_send ev).
Qed.

Lemma relay_no_send ev : is_relay ev = true -> no_send ev = true.
Proof.
  destruct ev; simpl; intros H; try discriminate; reflexivity.
Qed.

Lemma same_but_packet_set v e : same_but_packet e (set_packet v e).
Proof. reflexivity. Qed.

Lemma encode_loop_only_packet fuel ret0 :
  framed same_but_packet no_send (encode_loop fuel ret0).
Proof.
  apply framed_encode_loop;
    [typeclasses eauto | apply same_but_packet_set | apply relay_no_send].
Qed.

Lemma flush_loop_only_packet fuel ret0 :
  framed same_but_packet no_send (flush_loop fuel ret0).
Proof.
  apply framed_flush_loop;
    [typeclasses eauto | apply same_but_packet_set | apply relay_no_send].
Qed.

Lemma encodeFrame_same_contexts buffer :
  framed same_contexts any_event (encodeFrame buffer).
Proof.
  unfold encodeFrame, convert, avcodec_send_frame.
  framing; try reflexivity;
    try match goal with
        | |- same_contexts _ _ => unfold same_contexts; repeat split
        end.
  apply framed_encode_loop; [typeclasses eauto | | apply relay_any].
  intros v e0. unfold same_contexts. repeat split.
Qed.

Lemma finalize_only_packet : framed same_but_packet any_event finalize.
Proof.
  apply framed_finalize;
    [typeclasses eauto | apply same_but_packet_set | apply relay_any
    | reflexivity | reflexivity].
Qed.

Lemma initialize_same_work path props :
  framed same_work any_event (initialize path props).
Proof.
  unfold initialize, openFile, initHWAccel, initCodecContext, reset_formatCtx,
    reset_codecCtx, FF_CHECK.
  framing; try reflexivity;
    match goal with
    | e : Encoder |- _ =>
        unfold same_work;
        destruct e as [cv fc [cc|] hd hf [st|] pk pr t fr]; repeat split
    end.
Qed.

(** X3: [encodeFrame] never touches the contexts, the stream, the converter
    or the stored properties; [finalize] changes nothing but the contents
    of the packet buffer; [initialize] never touches the converter, the
    hardware contexts, the packet buffer, the timestamp counter or the
    frame. *)
Theorem methods_leave_alone :
  (forall buffer e rs, same_contexts e (o_enc (encodeFrame buffer e rs)))
  /\ (forall e rs, same_but_packet e (o_enc (finalize e rs)))
  /\ (forall path props e rs, same_work e (o_enc (initialize path props e rs))).
Proof.
  split; [|split].
  - intros buffer e rs. apply (encodeFrame_same_contexts buffer e rs).
  - intros e rs. apply (finalize_only_packet e rs).
  - intros path props e rs. apply (initialize_same_work path props e rs).
Qed.

(** ** Submissions *)

(** X4: once the conversion has succeeded, [encodeFrame] submits exactly
    one frame: the converted buffer, stamped with the counter as it was.
    The counter has moved on by one when the call ends, also when the codec
    rejects the frame; in that case nothing is asked of the codec and the
    call returns false. *)
Theorem encodeFrame_submits_once buffer e c r rs :
  isOpen e = true -> converter e = true -> 0 <= c ->
  exists evs,
    o_evs (encodeFrame buffer e (c :: r :: rs))
    = EvConvert buffer c :: EvSendFrame (Some (mkFrame buffer (pts e))) r :: evs
    /\ existsb is_send evs = false
    /\ pts (o_enc (encodeFrame buffer e (c :: r :: rs))) = wrap64 (pts e + 1)
    /\ frame (o_enc (encodeFrame buffer e (c :: r :: rs))) = mkFrame buffer (pts e)
    /\ (r < 0 ->
        o_res (encodeFrame buffer e (c :: r :: rs)) = Ok false
        /\ o_rest (encodeFrame buffer e (c :: r :: rs)) = rs
        /\ evs = [EvCerr ("Error in Write Frame: "
                          ++ ("error sending frame to encoder"
                              ++ errorToString r))%string]).
Proof.
  intros Hopen Hconv Hc.
  assert (Hcb : (hd 0 (c :: r :: rs) <? 0) = false) by (apply Z.ltb_ge; exact Hc).
  destruct (r <? 0) eqn:Hr.
  - rewrite (encodeFrame_submit_fails buffer e (c :: r :: rs) Hopen Hconv Hcb Hr).
    cbn [hd tl o_evs o_enc o_res o_rest]. eexists. split; [reflexivity|].
    repeat split.
  - rewrite (encodeFrame_drains buffer e (c :: r :: rs) Hopen Hconv Hcb Hr).
    cbn [hd tl].
    destruct (encode_loop_only_packet (S (List.length rs)) r (stamped buffer e) rs)
      as [Hsame Hq].
    apply no_send_none in Hq. unfold same_but_packet in Hsame.
    destruct (encode_loop _ _ _ _) as [[[]|x| |] e1 rs1 evs1];
      cbn [caught after o_evs o_enc o_res o_rest app] in *;
      eexists; (split; [reflexivity|]);
      rewrite Hsame; rewrite ?existsb_app, ?Hq;
      (split; [reflexivity|]); (split; [reflexivity|]); (split; [reflexivity|]);
      intros Hneg; apply Z.ltb_ge in Hr; lia.
Qed.

(** X5: on an open session [finalize] first submits the end-of-input
    marker, and submits nothing else, no frame and no second marker,
    whatever the codec answers. *)
Theorem finalize_submits_one_marker e rs :
  isOpen e = true ->
  exists r evs,
    o_evs (finalize e rs) = EvSendFrame None r :: evs
    /\ existsb is_send evs = false.
Proof.
  intros Hopen. destruct (hd 0 rs <? 0) eqn:Hr.
  - rewrite (finalize_submit_fails e rs Hopen Hr). now eexists _, [].
  - rewrite (finalize_drains e rs Hopen Hr).
    destruct (flush_loop_only_packet (S (List.length (tl rs))) (hd 0 rs) e (tl rs))
      as [_ Hq].
    apply no_send_none in Hq.
    destruct (flush_loop _ _ _ _) as [[[]|x| |] e1 rs1 evs1];
      cbn [trailer after o_evs app] in *;
      eexists _, _; (split; [reflexivity|]);
      rewrite ?existsb_app, ?Hq; reflexivity.
Qed.

(** ** A successful [initialize] *)





(** ** Opening the output *)

(** X7: [openFile] opens the byte sink exactly when the container format
    does not carry [AVFMT_NOFILE]: with the flag it returns without calling
    [avio_open]; without it the outcome is that of [avio_open], and a
    failure there leaves the freshly allocated format context in place. *)
Theorem openFile_opens_unless_nofile path props e h fl r rs :
  h <> 0 ->
  (Z.land fl AVFMT_NOFILE <> 0 ->
   o_res (openFile path props e (h :: fl :: r :: rs)) = Ok tt
   /\ existsb is_avio_open (o_evs (openFile path props e (h :: fl :: r :: rs)))
      = false
   /\ o_rest (openFile path props e (h :: fl :: r :: rs)) = r :: rs
   /\ formatCtx (o_enc (openFile path props e (h :: fl :: r :: rs)))
      = Some (mkFormatCtx h false))
  /\ (Z.land fl AVFMT_NOFILE = 0 ->
      In (EvAvioOpen path r) (o_evs (openFile path props e (h :: fl :: r :: rs)))
      /\ o_rest (openFile path props e (h :: fl :: r :: rs)) = rs
      /\ (0 <= r ->
          o_res (openFile path props e (h :: fl :: r :: rs)) = Ok tt
          /\ formatCtx (o_enc (openFile path props e (h :: fl :: r :: rs)))
             = Some (mkFormatCtx h true))
      /\ (r < 0 ->
          o_res (openFile path props e (h :: fl :: r :: rs))
          = Throw (CxException ("Could not open output file: " ++ path)%string)
          /\ formatCtx (o_enc (openFile path props e (h :: fl :: r :: rs)))
             = Some (mkFormatCtx h false))).
Proof.
  intros Hh. apply Z.eqb_neq in Hh.
  unfold openFile, reset_formatCtx. run. rewrite Hh. run.
  split.
  - intros Hfl. apply Z.eqb_neq in Hfl. rewrite Hfl.
    destruct (formatCtx e); run; repeat split.
  - intros Hfl. apply Z.eqb_eq in Hfl. rewrite Hfl.
    destruct (formatCtx e); run; destruct (r <? 0) eqn:Hr; run;
      cbn [o_res o_enc o_evs o_rest formatCtx];
      (split; [cbn [In]; auto 10|]); (split; [reflexivity|]);
      (split; intros Hr'; [|]);
      first [ exfalso; tests_to_Z; lia | split; reflexivity ].
Qed.

(** ** Construction, destruction, moves *)

(** X8: an encoder that is constructed and destroyed without ever being
    initialized calls neither the codec nor the muxer: the destructor
    returns, having only freed the packet the constructor allocated. *)
Theorem construct_then_destroy conv e0 p rs :
  p <> 0 ->
  (Encoder_ctor conv ;; Encoder_dtor) e0 (p :: rs)
  = mkOut (Ok tt) (released (fresh conv)) rs [EvPacketAlloc p; EvPacketFree].
Proof.
  intros Hp. apply Z.eqb_neq in Hp.
  unfold Encoder_ctor, Encoder_dtor. run. rewrite Hp. run.
  rewrite close_not_open by reflexivity. reflexivity.
Qed.

(** X9: [close] is idempotent once it has returned: on the encoder a
    returning [close] leaves, any further [close] returns at once, calls
    nothing and changes nothing. *)
Theorem close_idempotent e rs rs' :
  o_res (close e rs) = Ok tt ->
  close (o_enc (close e rs)) rs' = mkOut (Ok tt) (o_enc (close e rs)) rs' [].
Proof.
  rewrite close_shape.
  destruct (finalize e rs) as [[b|x| |] e1 rs1 evs1]; cbn [o_res o_enc];
    try discriminate.
  intros _. rewrite close_not_open by apply released_closed.
  reflexivity.
Qed.

(** X10: the move constructor hands the whole session to the new object,
    which is open exactly when the source was and continues its timestamp
    counter; the source is left not open and owning nothing, so closing or
    destroying it calls nothing and frees nothing. *)
Theorem move_construct_transfers e rs :
  isOpen (fst (move_construct e)) = isOpen e
  /\ pts (fst (move_construct e)) = pts e
  /\ packet (fst (move_construct e)) = packet e
  /\ stream (fst (move_construct e)) = stream e
  /\ converter (fst (move_construct e)) = converter e
  /\ isOpen (snd (move_construct e)) = false
  /\ close (snd (move_construct e)) rs
     = mkOut (Ok tt) (snd (move_construct e)) rs [].
Proof.
  repeat split.
Qed.


(** ** The codec registry *)

Lemma prefix_append s t : prefix s (s ++ t)%string = true.
Proof.
  induction s as [|a s IH]; [now destruct t|].
  cbn. destruct (Ascii.ascii_dec a a) as [_|Hne]; [exact IH | now elim Hne].
Qed.

Lemma prefix_refl s : prefix s s = true.
Proof.
  induction s as [|a s IH]; [reflexivity|].
  cbn. destruct (Ascii.ascii_dec a a) as [_|Hne]; [exact IH | now elim Hne].
Qed.

(** X12: [listSupportedEncoders] returns one entry per encoder of the
    registry, in registry order, and none for a codec that is not an
    encoder; each entry begins with the codec's name. *)
Theorem listSupportedEncoders_lists_encoders registry :
  listSupportedEncoders registry
  = map codecInfo (filter codec_is_encoder registry)
  /\ (forall s, In s (listSupportedEncoders registry) ->
                exists c, In c registry /\ codec_is_encoder c = true
                          /\ s = codecInfo c
                          /\ prefix (codec_name c) s = true).
Proof.
  assert (Heq : listSupportedEncoders registry
                = map codecInfo (filter codec_is_encoder registry)).
  { induction registry as [|c rest IH]; [reflexivity|].
    cbn [listSupportedEncoders filter].
    destruct (codec_is_encoder c); cbn [map]; now rewrite IH. }
  split; [exact Heq|].
  intros s Hin. rewrite Heq in Hin. apply in_map_iff in Hin.
  destruct Hin as [c [Hs Hc]]. apply filter_In in Hc. destruct Hc as [Hc Henc].
  exists c. repeat split; auto. subst s. unfold codecInfo.
  destruct (codec_long_name c); [apply prefix_append | apply prefix_refl].
Qed.

End EncoderMethods.

(** * Concrete runs *)

(** C5, as stated, fails: the stream allocation fails once both contexts
    are in place, [initialize] raises, and the encoder, which was not open
    before, reports open. *)
Lemma initialize_failure_leaves_open :
  o_res (initialize "out.mp4" props_720p (fresh true) [1; 0; 0; 1; 1; 4; 0; 0])
  = Throw (CxException "Failed allocating output stream")
  /\ isOpen (fresh true) = false
  /\ isOpen (o_enc (initialize "out.mp4" props_720p (fresh true)
                               [1; 0; 0; 1; 1; 4; 0; 0])) = true.
Proof. repeat split. Qed.

Lemma initialize_failure_raises_witness :
  codecCtx (fresh true) = None
  /\ isOpen (o_enc (initialize "out.mp4" props_720p (fresh true) [1; 0; 0; 0]))
     = existsb codec_allocated
               (o_evs (initialize "out.mp4" props_720p (fresh true) [1; 0; 0; 0])).
Proof.
  split; [reflexivity|].
  exact (proj2 (proj2 (initialize_failure_raises "out.mp4" props_720p
                         (fresh true) [1; 0; 0; 0] eq_refl))).
Defined.


Lemma encodeFrame_convert_failure_witness :
  isOpen opened = true /\ converter opened = true /\ -1 < 0
  /\ encodeFrame plain_error 7 opened [-1; 0; 0]
     = mkOut (Ok false) opened [0; 0]
             [EvConvert 7 (-1);
              EvCerr "Error in Write Frame: Error converting frame"].
Proof.
  split; [reflexivity|]. split; [reflexivity|]. split; [reflexivity|].
  exact (proj1 (encodeFrame_convert_failure plain_error 7 opened (-1) [0; 0]
                  eq_refl eq_refl eq_refl)).
Defined.

Lemma session_stamps_count_up_witness :
  Z.of_nat (List.length [CallInitialize "out.mp4" props_720p;
                         CallEncodeFrame 1; CallEncodeFrame 2; CallFinalize])
  < 2^63
  /\ exists n,
      (n <= 4)%nat
      /\ stamps (o_evs (session plain_error true
                                [CallInitialize "out.mp4" props_720p;
                                 CallEncodeFrame 1; CallEncodeFrame 2;
                                 CallFinalize] []))
         = map Z.of_nat (seq 0 n)
      /\ pts (o_enc (session plain_error true
                              [CallInitialize "out.mp4" props_720p;
                               CallEncodeFrame 1; CallEncodeFrame 2;
                               CallFinalize] []))
         = Z.of_nat n.
Proof.
  split; [reflexivity|].
  exact (session_stamps_count_up plain_error true
           [CallInitialize "out.mp4" props_720p;
            CallEncodeFrame 1; CallEncodeFrame 2; CallFinalize] [] eq_refl).
Defined.

Lemma encodeFrame_catches_everything_witness :
  (forall x, o_res (encodeFrame plain_error 5 opened [0; 0; 0; -5]) <> Throw x)
  /\ o_res (encodeFrame plain_error 5 opened [0; 0; 0; -5]) <> OutOfFuel
  /\ isOpen (o_enc (encodeFrame plain_error 5 opened [0; 0; 0; -5]))
     = isOpen opened.
Proof.
  pose proof (encodeFrame_catches_everything plain_error 5 opened [0; 0; 0; -5])
    as H.
  exact (conj (proj1 H) (conj (proj1 (proj2 H)) (proj1 (proj2 (proj2 H))))).
Defined.

Lemma finalize_contract_witness :
  isOpen opened = true
  /\ o_res (finalize opened [0; AVERROR_EOF; -1]) <> Ok false.
Proof.
  split; [reflexivity|].
  exact (proj1 (proj2 (finalize_contract opened [0; AVERROR_EOF; -1]) eq_refl)).
Defined.

Lemma packet_released_after_every_write_witness :
  unref_follows_write (o_evs (encodeFrame plain_error 5 opened [0; 0; 0; -1]))
  = true
  /\ unref_follows_write (o_evs (finalize opened [0; 0; -1])) = true.
Proof.
  pose proof (packet_released_after_every_write plain_error 5 opened
                [0; 0; 0; -1]) as He.
  pose proof (packet_released_after_every_write plain_error 5 opened
                [0; 0; -1]) as Hf.
  exact (conj (proj1 (proj1 He)) (proj1 (proj2 Hf))).
Defined.

Lemma finalize_keeps_open_witness :
  isOpen (o_enc (finalize opened [0; AVERROR_EOF; 0])) = isOpen opened
  /\ isOpen (o_enc (close opened [0; AVERROR_EOF; 0])) = false.
Proof.
  split.
  - exact (proj1 (finalize_keeps_open plain_error) opened [0; AVERROR_EOF; 0]).
  - exact (proj1 (proj2 (proj2 (finalize_keeps_open plain_error)))
             opened [0; AVERROR_EOF; 0] eq_refl).
Defined.

Lemma encodeFrame_not_open_witness :
  isOpen (fresh true) = false
  /\ encodeFrame plain_error 7 (fresh true) [0; 0]
     = mkOut (Ok false) (fresh true) [0; 0]
             [EvCerr "Error in Write Frame: Encoder is not open"].
Proof.
  split; [reflexivity|].
  exact (proj1 (encodeFrame_not_open plain_error) 7 (fresh true) [0; 0] eq_refl).
Defined.

(** ** Concrete runs of the further properties *)

Lemma packets_relayed_in_order_witness :
  codecCtx opened = Some opened_codec /\ stream opened = Some opened_stream
  /\ well_relayed opened_codec opened_stream
       (o_evs (encodeFrame plain_error 5 opened [0; 0; 0; 0])) = true
  /\ o_evs (encodeFrame plain_error 5 opened [0; 0; 0; 0])
     = [EvConvert 5 0; EvSendFrame (Some (mkFrame 5 0)) 0;
        EvReceivePacket 0;
        EvRescaleTs (mkRational 1 30) (mkRational 1 30);
        EvWriteFrame (mkPacket true 0) 0; EvPacketUnref;
        EvReceivePacket AVERROR_EAGAIN].
Proof.
  split; [reflexivity|]. split; [reflexivity|].
  split; [|reflexivity].
  exact (proj1 (packets_relayed_in_order plain_error 5 opened [0; 0; 0; 0]
                  opened_codec opened_stream eq_refl eq_refl)).
Defined.

Lemma encodeFrame_true_means_drained_witness :
  o_res (encodeFrame plain_error 5 opened [0; 0; 0; 0]) = Ok true
  /\ exists evs r,
      o_evs (encodeFrame plain_error 5 opened [0; 0; 0; 0])
      = evs ++ [EvReceivePacket r]
      /\ (r = AVERROR_EAGAIN \/ r = AVERROR_EOF).
Proof.
  split; [reflexivity|].
  exact (encodeFrame_true_means_drained plain_error 5 opened [0; 0; 0; 0]
           eq_refl).
Defined.

Lemma encodeFrame_submits_once_witness :
  isOpen opened = true /\ converter opened = true /\ 0 <= 0
  /\ exists evs,
      o_evs (encodeFrame plain_error 5 opened [0; -22; 9])
      = EvConvert 5 0 :: EvSendFrame (Some (mkFrame 5 (pts opened))) (-22) :: evs
      /\ existsb is_send evs = false.
Proof.
  split; [reflexivity|]. split; [reflexivity|].
  assert (H : 0 <= 0) by lia.
  split; [exact H|].
  destruct (encodeFrame_submits_once plain_error 5 opened 0 (-22) [9]
              eq_refl eq_refl H) as [evs [H1 [H2 _]]].
  exact (ex_intro _ evs (conj H1 H2)).
Defined.

Lemma finalize_submits_one_marker_witness :
  isOpen opened = true
  /\ exists r evs,
      o_evs (finalize opened [0; 0; 0]) = EvSendFrame None r :: evs
      /\ existsb is_send evs = false.
Proof.
  split; [reflexivity|].
  exact (finalize_submits_one_marker opened [0; 0; 0] eq_refl).
Defined.


Lemma openFile_opens_unless_nofile_witness :
  1 <> 0 /\ Z.land 1 AVFMT_NOFILE <> 0
  /\ o_res (openFile "out.mp4" props_720p (fresh true) [1; 1; -2]) = Ok tt
  /\ existsb is_avio_open
       (o_evs (openFile "out.mp4" props_720p (fresh true) [1; 1; -2])) = false.
Proof.
  assert (H1 : 1 <> 0) by discriminate.
  assert (H2 : Z.land 1 AVFMT_NOFILE <> 0) by discriminate.
  split; [exact H1|]. split; [exact H2|].
  destruct (proj1 (openFile_opens_unless_nofile "out.mp4" props_720p
                     (fresh true) 1 1 (-2) [] H1) H2) as [H3 [H4 _]].
  exact (conj H3 H4).
Defined.

Lemma construct_then_destroy_witness :
  1 <> 0
  /\ (Encoder_ctor true ;; Encoder_dtor)%enc unconstructed [1; 7]
     = mkOut (Ok tt) (released (fresh true)) [7] [EvPacketAlloc 1; EvPacketFree].
Proof.
  assert (H : 1 <> 0) by discriminate.
  exact (conj H (construct_then_destroy true unconstructed 1 [7] H)).
Defined.

Lemma close_idempotent_witness :
  o_res (close opened [0; AVERROR_EOF; 0]) = Ok tt
  /\ close (o_enc (close opened [0; AVERROR_EOF; 0])) [0; 0]
     = mkOut (Ok tt) (o_enc (close opened [0; AVERROR_EOF; 0])) [0; 0] [].
Proof.
  split; [reflexivity|].
  exact (close_idempotent opened [0; AVERROR_EOF; 0] [0; 0] eq_refl).
Defined.


(** * The reader: properties *)

Module ReaderFacts.
Import VideoReader.
Local Open Scope reader_scope.

Lemma wrap32_id z : in_int32 z -> wrap32 z = z.
Proof.
  unfold in_int32, wrap32. intros Hz. rewrite Z.mod_small by lia. lia.
Qed.

Lemma wrap32_range z : in_int32 (wrap32 z).
Proof.
  unfold in_int32, wrap32.
  pose proof (Z.mod_pos_bound (z + 2^31) (2^32) ltac:(lia)). lia.
Qed.

(** X13: [setRange] calls nothing.  It either raises a runtime error and
    leaves the reader as it was, or returns with a range that satisfies
    [0 <= start_frame <= end_frame], every other member unchanged. *)
Theorem setRange_outcome start end_ rd rs :
  in_int32 start -> in_int32 end_ ->
  r_evs (setRange start end_ rd rs) = []
  /\ r_rest (setRange start end_ rd rs) = rs
  /\ ((exists msg, r_res (setRange start end_ rd rs) = Raise (RuntimeError msg)
                  /\ r_rd (setRange start end_ rd rs) = rd)
      \/ (r_res (setRange start end_ rd rs) = Ret tt
          /\ 0 <= start_frame (r_rd (setRange start end_ rd rs))
             <= end_frame (r_rd (setRange start end_ rd rs))
          /\ r_rd (setRange start end_ rd rs)
             = set_range (start_frame (r_rd (setRange start end_ rd rs)))
                         (end_frame (r_rd (setRange start end_ rd rs))) rd)).
Proof.
  intros Hs He. unfold setRange, bind, gets. cbn.
  set (s1 := if start <? 0 then wrap32 (totalFrames (properties rd) + start)
             else start).
  set (e1 := if end_ <? 0 then wrap32 (totalFrames (properties rd) + end_)
             else end_).
  assert (He1 : in_int32 e1).
  { unfold e1. destruct (end_ <? 0); [apply wrap32_range | exact He]. }
  destruct ((s1 <? 0) || (e1 <? 0)) eqn:Hneg; cbn.
  { repeat split. left. eexists. split; reflexivity. }
  destruct (e1 <=? s1) eqn:Hle; cbn.
  { repeat split. left. eexists. split; reflexivity. }
  repeat split. right.
  apply orb_false_iff in Hneg. destruct Hneg as [Hs1 He1n].
  apply Z.ltb_ge in Hs1, He1n. apply Z.leb_gt in Hle.
  rewrite wrap32_id by (unfold in_int32 in *; lia).
  repeat split; lia.
Qed.

Lemma setRange_accepts start end_ rd rs :
  in_int32 start -> in_int32 end_ -> 0 <= start -> start < end_ ->
  setRange start end_ rd rs
  = mkROut (Ret tt) (set_range start (end_ - 1) rd) rs [].
Proof.
  intros Hs He Hlo Hlt. unfold in_int32 in *. unfold setRange, bind, gets. cbn.
  assert (H1 : (start <? 0) = false) by (apply Z.ltb_ge; lia).
  assert (H2 : (end_ <? 0) = false) by (apply Z.ltb_ge; lia).
  assert (H5 : (end_ <=? start) = false) by (apply Z.leb_gt; lia).
  repeat (rewrite ?H1, ?H2, ?H5; cbn).
  rewrite wrap32_id by (unfold in_int32; lia). reflexivity.
Qed.

(** X14: [setRange] reads negative indices from the end of the video and
    checks non-negative ones against nothing: with both indices negative
    and in order the range is [totalFrames + start, totalFrames + end),
    and any [0 <= start < end] is accepted as it is, whatever the number of
    frames of the video. *)
Theorem setRange_adjusts start end_ rd rs :
  in_int32 start -> in_int32 end_ ->
  (0 <= totalFrames (properties rd) < 2^31 ->
   - totalFrames (properties rd) <= start -> start < end_ -> end_ < 0 ->
   setRange start end_ rd rs
   = mkROut (Ret tt)
            (set_range (totalFrames (properties rd) + start)
                       (totalFrames (properties rd) + end_ - 1) rd) rs [])
  /\ (0 <= start -> start < end_ ->
      setRange start end_ rd rs
      = mkROut (Ret tt) (set_range start (end_ - 1) rd) rs []).
Proof.
  intros Hs He. unfold in_int32 in *. split.
  - intros Ht Hlo Hlt Hneg. unfold setRange, bind, gets. cbn.
    assert (H1 : (start <? 0) = true) by (apply Z.ltb_lt; lia).
    assert (H2 : (end_ <? 0) = true) by (apply Z.ltb_lt; lia).
    rewrite H1, H2.
    rewrite (wrap32_id (totalFrames (properties rd) + start))
      by (unfold in_int32; lia).
    rewrite (wrap32_id (totalFrames (properties rd) + end_))
      by (unfold in_int32; lia).
    assert (H3 : (totalFrames (properties rd) + start <? 0) = false)
      by (apply Z.ltb_ge; lia).
    assert (H4 : (totalFrames (properties rd) + end_ <? 0) = false)
      by (apply Z.ltb_ge; lia).
    assert (H5 : (totalFrames (properties rd) + end_
                  <=? totalFrames (properties rd) + start) = false)
      by (apply Z.leb_gt; lia).
    rewrite H3, H4, H5. cbn.
    rewrite wrap32_id by (unfold in_int32; lia). reflexivity.
  - intros Hlo Hlt. apply setRange_accepts; unfold in_int32; assumption.
Qed.

(** X15: [seekToFrame] answers false for a frame number outside
    [0, totalFrames) without touching the decoder; inside the range it
    seeks once, to the time of that frame, and answers what the decoder
    answers. *)
Theorem seekToFrame_checks_bounds frame_number rd r rs :
  ((frame_number < 0 \/ totalFrames (properties rd) <= frame_number) ->
   seekToFrame frame_number rd rs = mkROut (Ret false) rd rs [])
  /\ (0 <= frame_number < totalFrames (properties rd) -> decoder rd = true ->
      seekToFrame frame_number rd (r :: rs)
      = mkROut (Ret (negb (r =? 0))) rd rs [EvSeek (FrameTime frame_number) r]).
Proof.
  split.
  - intros Hout. unfold seekToFrame, bind, gets. cbn.
    assert (H : (frame_number <? 0) || (totalFrames (properties rd) <=? frame_number)
                = true).
    { apply orb_true_iff. destruct Hout as [H|H];
        [left; apply Z.ltb_lt | right; apply Z.leb_le]; lia. }
    now rewrite H.
  - intros Hin Hdec. unfold seekToFrame, seek, bind, gets. cbn.
    assert (H : (frame_number <? 0) || (totalFrames (properties rd) <=? frame_number)
                = false).
    { apply orb_false_iff. split; [apply Z.ltb_ge | apply Z.leb_gt]; lia. }
    rewrite H. cbn. rewrite Hdec. reflexivity.
Qed.

(** X16: [iter] puts the index at the start of the range and never fails on
    account of the seek: when the start lies outside [0, totalFrames) no
    seek is made at all, otherwise the answer of the seek is dropped. *)
Theorem iter_positions rd r rs :
  ((start_frame rd < 0 \/ totalFrames (properties rd) <= start_frame rd) ->
   iter rd rs = mkROut (Ret tt) (set_currentIndex (start_frame rd) rd) rs [])
  /\ (0 <= start_frame rd < totalFrames (properties rd) -> decoder rd = true ->
      iter rd (r :: rs)
      = mkROut (Ret tt) (set_currentIndex (start_frame rd) rd) rs
               [EvSeek (FrameTime (start_frame rd)) r]).
Proof.
  split.
  - intros Hout. unfold iter, seekToFrame, bind, gets, modify. cbn.
    assert (H : (start_frame rd <? 0)
                || (totalFrames (properties rd) <=? start_frame rd) = true).
    { apply orb_true_iff. destruct Hout as [H|H];
        [left; apply Z.ltb_lt | right; apply Z.leb_le]; lia. }
    now rewrite H.
  - intros Hin Hdec. unfold iter, seekToFrame, seek, bind, gets, modify. cbn.
    assert (H : (start_frame rd <? 0)
                || (totalFrames (properties rd) <=? start_frame rd) = false).
    { apply orb_false_iff. split; [apply Z.ltb_ge | apply Z.leb_gt]; lia. }
    rewrite H. cbn. rewrite Hdec. reflexivity.
Qed.

(** X17: [reset] rewinds to time zero and to index 0, not to the start of
    the range set by [setRange], whatever the decoder answers to the
    seek. *)
Theorem reset_ignores_range rd r rs :
  decoder rd = true ->
  reset rd (r :: rs)
  = mkROut (Ret tt) (set_currentIndex 0 rd) rs [EvSeek Seconds0 r].
Proof.
  intros Hdec. unfold reset, seek, bind, gets, modify. cbn. now rewrite Hdec.
Qed.

Lemma next_past_range rd rs :
  0 <= end_frame rd -> end_frame rd < currentIndex rd ->
  next rd rs = mkROut (Raise StopIteration) rd rs [].
Proof.
  intros H0 H1. unfold next, bind, gets. cbn.
  assert (H : (0 <=? end_frame rd) && (end_frame rd <? currentIndex rd) = true).
  { apply andb_true_iff. split; [apply Z.leb_le | apply Z.ltb_lt]; lia. }
  now rewrite H.
Qed.

Lemma next_decoded rd p rs :
  decoder rd = true -> numel (cpuTensor rd) <> 0 ->
  (end_frame rd < 0 \/ currentIndex rd <= end_frame rd) ->
  next rd (1 :: p :: rs)
  = mkROut (Ret RefCpu)
           (set_currentIndex (wrap32 (currentIndex rd + 1))
              (set_cpuTensor (mkTensor (numel (cpuTensor rd))
                                       (device (cpuTensor rd)) p)
                 (set_RGBTensor (mkTensor (numel (RGBTensor rd))
                                          (device (RGBTensor rd)) p) rd)))
           rs [EvDecodeNextFrame 1; EvFrameWritten p; EvCopy].
Proof.
  intros Hdec Hn Hin. unfold next, readFrame, bind, gets, modify, emit. cbn.
  assert (H : (0 <=? end_frame rd) && (end_frame rd <? currentIndex rd) = false).
  { apply andb_false_iff. destruct Hin as [H|H];
      [left; apply Z.leb_gt | right; apply Z.ltb_ge]; lia. }
  rewrite H. cbn. rewrite Hdec. cbn.
  apply Z.eqb_neq in Hn. rewrite Hn. reflexivity.
Qed.

(** X18: past the end of a range [next] raises [StopIteration] at once: the
    decoder is not asked and the reader does not change. *)
Theorem next_stops_past_range rd rs :
  0 <= end_frame rd -> end_frame rd < currentIndex rd ->
  next rd rs = mkROut (Raise StopIteration) rd rs [].
Proof. exact (next_past_range rd rs). Qed.

(** X19: inside the range, or with no range set, a decoded frame is copied
    into [cpuTensor], [cpuTensor] is what [next] returns, and the index
    moves on by one. *)
Theorem next_returns_frame rd p rs :
  decoder rd = true -> numel (cpuTensor rd) <> 0 ->
  (end_frame rd < 0 \/ currentIndex rd <= end_frame rd) ->
  next rd (1 :: p :: rs)
  = mkROut (Ret RefCpu)
           (set_currentIndex (wrap32 (currentIndex rd + 1))
              (set_cpuTensor (mkTensor (numel (cpuTensor rd))
                                       (device (cpuTensor rd)) p)
                 (set_RGBTensor (mkTensor (numel (RGBTensor rd))
                                          (device (RGBTensor rd)) p) rd)))
           rs [EvDecodeNextFrame 1; EvFrameWritten p; EvCopy].
Proof. exact (next_decoded rd p rs). Qed.

(** X20: the end of the stream and a decoding failure are told apart: when
    the decoder answers 0 [next] raises [StopIteration], on any answer
    other than 0 and 1 it raises a runtime error; in both cases the index
    stays where it was. *)
Theorem next_end_or_failure rd result rs :
  decoder rd = true -> result <> 1 ->
  (end_frame rd < 0 \/ currentIndex rd <= end_frame rd) ->
  next rd (result :: rs)
  = mkROut (Raise (if result =? 0 then StopIteration
                   else RuntimeError "Failed to decode the next frame."))
           rd rs [EvDecodeNextFrame result].
Proof.
  intros Hdec Hr Hin. unfold next, readFrame, bind, gets, modify, emit. cbn.
  assert (H : (0 <=? end_frame rd) && (end_frame rd <? currentIndex rd) = false).
  { apply andb_false_iff. destruct Hin as [H|H];
      [left; apply Z.leb_gt | right; apply Z.ltb_ge]; lia. }
  rewrite H. cbn. rewrite Hdec. cbn.
  apply Z.eqb_neq in Hr. rewrite Hr.
  destruct (result =? 0); reflexivity.
Qed.

(** A call of [next] that returns has moved the index on by one, from
    inside the range, and has asked the decoder once. *)
Lemma next_progress rd rs t :
  r_res (next rd rs) = Ret t ->
  currentIndex (r_rd (next rd rs)) = wrap32 (currentIndex rd + 1)
  /\ end_frame (r_rd (next rd rs)) = end_frame rd
  /\ (end_frame rd < 0 \/ currentIndex rd <= end_frame rd)
  /\ List.length (filter is_decode (r_evs (next rd rs))) = 1%nat.
Proof.
  unfold next, readFrame, bind, gets, modify, emit. cbn.
  destruct ((0 <=? end_frame rd) && (end_frame rd <? currentIndex rd)) eqn:Hrange;
    cbn; [discriminate|].
  assert (Hin : end_frame rd < 0 \/ currentIndex rd <= end_frame rd).
  { apply andb_false_iff in Hrange. destruct Hrange as [H|H];
      [left; apply Z.leb_gt in H | right; apply Z.ltb_ge in H]; lia. }
  destruct (decoder rd); cbn; [|discriminate].
  destruct rs as [|result rs]; cbn; [discriminate|].
  destruct (result =? 1) eqn:H1; cbn.
  - destruct rs as [|p rs]; cbn;
      destruct (numel (cpuTensor rd) =? 0); cbn; try discriminate;
      intros _; repeat split; auto.
  - destruct (result =? 0); cbn; discriminate.
Qed.

(** A call of [next] asks the decoder at most once, and not at all past
    the range. *)
Lemma next_decodes_once rd rs :
  (List.length (filter is_decode (r_evs (next rd rs))) <= 1)%nat
  /\ (0 <= end_frame rd -> end_frame rd < currentIndex rd ->
      r_evs (next rd rs) = []).
Proof.
  split.
  - unfold next, readFrame, bind, gets, modify, emit. cbn.
    destruct ((0 <=? end_frame rd) && (end_frame rd <? currentIndex rd));
      cbn; [lia|].
    destruct (decoder rd); cbn; [|lia].
    destruct rs as [|result rs]; cbn; [lia|].
    destruct (result =? 1); cbn.
    + destruct rs as [|p rs]; cbn;
        destruct (numel (cpuTensor rd) =? 0); cbn; lia.
    + destruct (result =? 0); cbn; lia.
  - intros H0 H1. now rewrite next_past_range.
Qed.

Lemma r_evs_later {A} l (o : ROut A) : r_evs (later l o) = l ++ r_evs o.
Proof. destruct o; reflexivity. Qed.

Lemma r_res_later {A} l (o : ROut A) : r_res (later l o) = r_res o.
Proof. destruct o; reflexivity. Qed.

Lemma take_bounded n :
  forall rd rs,
    0 <= end_frame rd < 2^31 - 1 ->
    - 2^31 <= currentIndex rd <= end_frame rd + 1 ->
    exists k,
      r_res (take n rd rs) = Ret k
      /\ Z.of_nat k <= end_frame rd + 1 - currentIndex rd
      /\ Z.of_nat (List.length (filter is_decode (r_evs (take n rd rs))))
         <= end_frame rd + 1 - currentIndex rd.
Proof.
  induction n as [|n IH]; intros rd rs Hef Hci.
  - exists O. cbn. repeat split; lia.
  - cbn [take].
    pose proof (next_progress rd rs) as Hprog.
    pose proof (next_decodes_once rd rs) as [Hone Hpast].
    destruct (next rd rs) as [[t|x|] rd1 rs1 evs1] eqn:Hnext;
      cbn [r_res r_rd r_evs] in *.
    + destruct (Hprog t eq_refl) as [Hidx [Hend [Hin Hdec]]].
      assert (Hci1 : currentIndex rd <= end_frame rd) by lia.
      rewrite wrap32_id in Hidx by (unfold in_int32; lia).
      destruct (IH rd1 rs1) as [k [Hk [Hkb Hdb]]]; [lia | lia |].
      unfold bind.
      destruct (take n rd1 rs1) as [[k'|x|] rd2 rs2 evs2];
        cbn [r_res] in Hk; try discriminate.
      injection Hk as ->.
      exists (S k). cbn [later ret r_res r_evs] in *.
      rewrite app_nil_r, filter_app, length_app.
      repeat split; lia.
    + exists O. split; [reflexivity|].
      destruct (Z_lt_le_dec (end_frame rd) (currentIndex rd)) as [Hlt|Hle].
      * rewrite Hpast by lia. cbn. lia.
      * cbn. lia.
    + exists O. split; [reflexivity|].
      destruct (Z_lt_le_dec (end_frame rd) (currentIndex rd)) as [Hlt|Hle].
      * rewrite Hpast by lia. cbn. lia.
      * cbn. lia.
Qed.

Lemma bind_Ret {A B} (m : R A) (k : A -> R B) rd rs a rd1 rs1 evs1 :
  m rd rs = mkROut (Ret a) rd1 rs1 evs1 ->
  bind m k rd rs = later evs1 (k a rd1 rs1).
Proof. intros H. unfold bind. now rewrite H. Qed.

Lemma bind_Undef {A B} (m : R A) (k : A -> R B) rd rs rd1 rs1 evs1 :
  m rd rs = mkROut Undef rd1 rs1 evs1 ->
  bind m k rd rs = mkROut Undef rd1 rs1 evs1.
Proof. intros H. unfold bind. now rewrite H. Qed.

(** X21: iterating over a range set by [setRange start end] hands out at
    most [end - start] frames and asks the decoder at most [end - start]
    times, however long the caller goes on calling [next] and whatever the
    decoder holds. *)
Theorem range_iteration_bounded start end_ n rd rs k :
  in_int32 start -> in_int32 end_ -> 0 <= start -> start < end_ ->
  r_res ((setRange start end_ ;; iter ;; take n) rd rs) = Ret k ->
  Z.of_nat k <= end_ - start
  /\ Z.of_nat (List.length
                 (filter is_decode
                         (r_evs ((setRange start end_ ;; iter ;; take n) rd rs))))
     <= end_ - start.
Proof.
  intros Hs He H0 Hlt.
  rewrite (bind_Ret _ _ _ _ _ _ _ _
             (setRange_accepts start end_ rd rs Hs He H0 Hlt)).
  cbn [later].
  set (rd1 := set_range start (end_ - 1) rd).
  assert (Hiter : exists r_rs evs,
             iter rd1 rs = mkROut Undef (set_currentIndex start rd1) rs []
             \/ (iter rd1 rs = mkROut (Ret tt) (set_currentIndex start rd1) r_rs evs
                 /\ filter is_decode evs = [])).
  { unfold iter, seekToFrame, seek, bind, gets, modify. cbn.
    destruct ((start <? 0) || (totalFrames (properties rd) <=? start)); cbn.
    - exists rs, []. right. split; reflexivity.
    - destruct (decoder rd); cbn.
      + destruct rs as [|r rs']; cbn.
        * eexists _, _. right. split; reflexivity.
        * eexists _, _. right. split; reflexivity.
      + exists rs, []. left. reflexivity. }
  destruct Hiter as [r_rs [evs [Hu|[Hi Hnd]]]].
  - rewrite (bind_Undef _ _ _ _ _ _ _ Hu). cbn. discriminate.
  - rewrite (bind_Ret _ _ _ _ _ _ _ _ Hi).
    destruct (take_bounded n (set_currentIndex start rd1) r_rs)
      as [k' [Hk [Hkb Hdb]]].
    { unfold rd1, in_int32 in *. cbn. lia. }
    { unfold rd1, in_int32 in *. cbn. lia. }
    destruct (take n (set_currentIndex start rd1) r_rs) as [res2 rd2 rs2 evs2].
    cbn [later r_res r_evs app] in *. rewrite Hk.
    intros Hres. injection Hres as <-.
    rewrite filter_app, Hnd. cbn [app].
    unfold rd1 in *. cbn in Hkb, Hdb. split; lia.
Qed.

(** X22: the frames [next] hands out are one tensor: after a second call
    the tensor returned by the first call holds the second frame. *)
Theorem frames_share_storage rd p1 p2 rs :
  decoder rd = true -> numel (cpuTensor rd) <> 0 -> end_frame rd < 0 ->
  r_res (next rd (1 :: p1 :: 1 :: p2 :: rs)) = Ret RefCpu
  /\ payload (deref (r_rd (next rd (1 :: p1 :: 1 :: p2 :: rs))) RefCpu) = p1
  /\ r_res (next (r_rd (next rd (1 :: p1 :: 1 :: p2 :: rs))) (1 :: p2 :: rs))
     = Ret RefCpu
  /\ payload (deref (r_rd (next (r_rd (next rd (1 :: p1 :: 1 :: p2 :: rs)))
                                 (1 :: p2 :: rs)))
                     RefCpu) = p2.
Proof.
  intros Hdec Hn Hef.
  rewrite (next_decoded rd p1 (1 :: p2 :: rs) Hdec Hn (or_introl Hef)).
  cbn [r_res r_rd].
  rewrite next_decoded; auto.
Qed.

(** X23: [close] always returns; it synchronizes a converter the reader
    still holds before it closes the decoder, leaves the reader holding
    neither, and is idempotent: a second [close] calls nothing.  Reading a
    frame or seeking after [close] uses the null decoder. *)
Theorem reader_close_releases rd rs rs' t :
  close rd rs
  = mkROut (Ret tt) (set_decoder false (set_convert false rd)) rs
           ((if convert rd then [EvSynchronize] else [])
            ++ (if decoder rd then [EvDecoderClose] else []))
  /\ close (r_rd (close rd rs)) rs' = mkROut (Ret tt) (r_rd (close rd rs)) rs' []
  /\ r_res (readFrame (r_rd (close rd rs)) rs') = Undef
  /\ r_res (seek t (r_rd (close rd rs)) rs') = Undef.
Proof.
  unfold close, readFrame, seek, bind, gets, modify, emit.
  destruct rd as [d c ci sf ef dev pr rgb cpu]. destruct c, d; cbn; repeat split.
Qed.

Lemma later_nil {A} (o : ROut A) : later [] o = o.
Proof. destruct o; reflexivity. Qed.

(** X24: whatever makes the constructor fail is printed to the error stream,
    with its message, as the last thing the constructor does, and is then
    raised again. *)
Theorem ctor_logs_and_rethrows filePath device_ dataType rd0 rs x :
  r_res (VideoReader_ctor filePath device_ dataType rd0 rs) = Raise x ->
  exists evs,
    r_evs (VideoReader_ctor filePath device_ dataType rd0 rs)
    = evs ++ [EvCerr ("Exception in VideoReader constructor: " ++ what x)%string].
Proof.
  unfold VideoReader_ctor.
  rewrite (bind_Ret (modify _) _ rd0 rs tt initial rs [] eq_refl), later_nil.
  match goal with
  | |- context [logged ?m] => generalize m
  end.
  intros m. unfold logged.
  destruct (m initial rs) as [[a|y|] rd1 rs1 evs1]; cbn [r_res r_evs].
  - discriminate.
  - intros Hx. injection Hx as ->. now exists evs1.
  - discriminate.
Qed.

(** X25: the constructor checks its arguments before it creates anything:
    a device other than "cuda" and "cpu", a data type other than "uint8",
    "float32" and "float16", and "cuda" without CUDA are refused with an
    exception that names the problem, the device being checked first, and
    neither converter, decoder nor tensor has been created. *)
Theorem ctor_validates_arguments filePath device_ dataType rd0 rs :
  (device_ <> "cuda" -> device_ <> "cpu" ->
   VideoReader_ctor filePath device_ dataType rd0 rs
   = mkROut (Raise (InvalidArgument ("Unsupported device: " ++ device_)%string))
            initial rs
            [EvCerr ("Exception in VideoReader constructor: "
                     ++ ("Unsupported device: " ++ device_))%string])
  /\ (dataType <> "uint8" -> dataType <> "float32" -> dataType <> "float16" ->
      VideoReader_ctor filePath "cpu" dataType rd0 rs
      = mkROut (Raise (InvalidArgument ("Unsupported dataType: " ++ dataType)%string))
               initial rs
               [EvCerr ("Exception in VideoReader constructor: "
                        ++ ("Unsupported dataType: " ++ dataType))%string])
  /\ (r_res (VideoReader_ctor filePath "cuda" dataType rd0 (0 :: rs))
      = Raise (RuntimeError
                 "CUDA is not available. Please install a CUDA-enabled version of celux.")
      /\ existsb is_creation
                 (r_evs (VideoReader_ctor filePath "cuda" dataType rd0 (0 :: rs)))
         = false).
Proof.
  split; [|split].
  - intros H1 H2. apply String.eqb_neq in H1, H2.
    unfold VideoReader_ctor, logged, bind, modify, raise. cbn.
    rewrite H1, H2. reflexivity.
  - intros H1 H2 H3. apply String.eqb_neq in H1, H2, H3.
    unfold VideoReader_ctor, logged, bind, modify, raise, ret. cbn.
    rewrite H1, H2, H3. reflexivity.
  - split; reflexivity.
Qed.

Ltac ctor_go :=
  repeat match goal with
         | |- context [if ?b then _ else _] => destruct b eqn:?; cbn
         | |- context [match ?l with [] => _ | _ :: _ => _ end] =>
             destruct l; cbn
         end.

Lemma ctor_constructed filePath device_ dataType rd0 rs :
  constructed (VideoReader_ctor filePath device_ dataType rd0 rs).
Proof.
  unfold VideoReader_ctor, logged, call, bind, gets, modify, emit, ext, ret, raise.
  cbn. ctor_go.
  all: unfold constructed; cbn; intros Hres; try discriminate; repeat split.
Qed.

(** X26: a reader whose constructor returned holds a decoder, stands at
    index 0 with no range set ([end_frame = -1]), and owns two tensors of
    [height * width * 3] elements that both live on the device the reader
    was asked for; nothing was printed. *)
Theorem ctor_leaves_reader filePath device_ dataType rd0 rs :
  r_res (VideoReader_ctor filePath device_ dataType rd0 rs) = Ret tt ->
  decoder (r_rd (VideoReader_ctor filePath device_ dataType rd0 rs)) = true
  /\ currentIndex (r_rd (VideoReader_ctor filePath device_ dataType rd0 rs)) = 0
  /\ start_frame (r_rd (VideoReader_ctor filePath device_ dataType rd0 rs)) = 0
  /\ end_frame (r_rd (VideoReader_ctor filePath device_ dataType rd0 rs)) = -1
  /\ device (RGBTensor (r_rd (VideoReader_ctor filePath device_ dataType rd0 rs)))
     = torchDevice (r_rd (VideoReader_ctor filePath device_ dataType rd0 rs))
  /\ device (cpuTensor (r_rd (VideoReader_ctor filePath device_ dataType rd0 rs)))
     = torchDevice (r_rd (VideoReader_ctor filePath device_ dataType rd0 rs))
  /\ numel (RGBTensor (r_rd (VideoReader_ctor filePath device_ dataType rd0 rs)))
     = height (properties (r_rd (VideoReader_ctor filePath device_ dataType rd0 rs)))
       * width (properties (r_rd (VideoReader_ctor filePath device_ dataType rd0 rs)))
       * 3
  /\ numel (cpuTensor (r_rd (VideoReader_ctor filePath device_ dataType rd0 rs)))
     = height (properties (r_rd (VideoReader_ctor filePath device_ dataType rd0 rs)))
       * width (properties (r_rd (VideoReader_ctor filePath device_ dataType rd0 rs)))
       * 3
  /\ existsb (fun ev => match ev with EvCerr _ => true | _ => false end)
             (r_evs (VideoReader_ctor filePath device_ dataType rd0 rs)) = false.
Proof. exact (ctor_constructed filePath device_ dataType rd0 rs). Qed.

(** ** Concrete runs of the reader *)

Lemma setRange_outcome_witness :
  in_int32 10 /\ in_int32 (-1)
  /\ r_evs (setRange 10 (-1) sample []) = [].
Proof.
  assert (H1 : in_int32 10) by (unfold in_int32; lia).
  assert (H2 : in_int32 (-1)) by (unfold in_int32; lia).
  exact (conj H1 (conj H2 (proj1 (setRange_outcome 10 (-1) sample [] H1 H2)))).
Defined.

Lemma setRange_adjusts_witness :
  in_int32 10 /\ in_int32 20 /\ 0 <= 10 /\ 10 < 20
  /\ setRange 10 20 sample [] = mkROut (Ret tt) (set_range 10 19 sample) [] [].
Proof.
  assert (H1 : in_int32 10) by (unfold in_int32; lia).
  assert (H2 : in_int32 20) by (unfold in_int32; lia).
  assert (H3 : 0 <= 10) by lia.
  assert (H4 : 10 < 20) by lia.
  exact (conj H1 (conj H2 (conj H3 (conj H4
           (proj2 (setRange_adjusts 10 20 sample [] H1 H2) H3 H4))))).
Defined.

Lemma seekToFrame_checks_bounds_witness :
  totalFrames (properties sample) <= 100
  /\ seekToFrame 100 sample [] = mkROut (Ret false) sample [] [].
Proof.
  assert (H : totalFrames (properties sample) <= 100) by (cbn; lia).
  exact (conj H (proj1 (seekToFrame_checks_bounds 100 sample 0 []) (or_intror H))).
Defined.

Lemma iter_positions_witness :
  0 <= start_frame sample < totalFrames (properties sample)
  /\ decoder sample = true
  /\ iter sample [1]
     = mkROut (Ret tt) (set_currentIndex (start_frame sample) sample) []
              [EvSeek (FrameTime (start_frame sample)) 1].
Proof.
  assert (H : 0 <= start_frame sample < totalFrames (properties sample))
    by (cbn; lia).
  exact (conj H (conj eq_refl (proj2 (iter_positions sample 1 []) H eq_refl))).
Defined.

Lemma reset_ignores_range_witness :
  decoder sample = true
  /\ reset (set_range 10 19 sample) [0]
     = mkROut (Ret tt) (set_currentIndex 0 (set_range 10 19 sample)) []
              [EvSeek Seconds0 0].
Proof.
  exact (conj eq_refl (reset_ignores_range (set_range 10 19 sample) 0 [] eq_refl)).
Defined.

Lemma next_stops_past_range_witness :
  0 <= end_frame (set_currentIndex 20 (set_range 10 19 sample))
  /\ end_frame (set_currentIndex 20 (set_range 10 19 sample))
     < currentIndex (set_currentIndex 20 (set_range 10 19 sample))
  /\ next (set_currentIndex 20 (set_range 10 19 sample)) [1; 7]
     = mkROut (Raise StopIteration)
              (set_currentIndex 20 (set_range 10 19 sample)) [1; 7] [].
Proof.
  assert (H1 : 0 <= end_frame (set_currentIndex 20 (set_range 10 19 sample)))
    by (cbn; lia).
  assert (H2 : end_frame (set_currentIndex 20 (set_range 10 19 sample))
               < currentIndex (set_currentIndex 20 (set_range 10 19 sample)))
    by (cbn; lia).
  exact (conj H1 (conj H2 (next_stops_past_range _ [1; 7] H1 H2))).
Defined.

Lemma next_returns_frame_witness :
  decoder sample = true /\ numel (cpuTensor sample) <> 0
  /\ end_frame sample < 0
  /\ r_res (next sample [1; 7]) = Ret RefCpu.
Proof.
  assert (H1 : numel (cpuTensor sample) <> 0) by (cbn; lia).
  assert (H2 : end_frame sample < 0) by (cbn; lia).
  refine (conj eq_refl (conj H1 (conj H2 _))).
  exact (f_equal r_res (next_returns_frame sample 7 [] eq_refl H1 (or_introl H2))).
Defined.

Lemma next_end_or_failure_witness :
  decoder sample = true /\ -5 <> 1 /\ end_frame sample < 0
  /\ next sample [-5]
     = mkROut (Raise (RuntimeError "Failed to decode the next frame."))
              sample [] [EvDecodeNextFrame (-5)].
Proof.
  assert (H1 : -5 <> 1) by lia.
  assert (H2 : end_frame sample < 0) by (cbn; lia).
  exact (conj eq_refl (conj H1 (conj H2
           (next_end_or_failure sample (-5) [] eq_refl H1 (or_introl H2))))).
Defined.

Lemma range_iteration_bounded_witness :
  in_int32 10 /\ in_int32 12 /\ 0 <= 10 /\ 10 < 12
  /\ r_res ((setRange 10 12 ;; iter ;; take 5) sample [1; 1; 7; 1; 8; 1; 9])
     = Ret 2%nat
  /\ Z.of_nat 2 <= 12 - 10.
Proof.
  assert (H1 : in_int32 10) by (unfold in_int32; lia).
  assert (H2 : in_int32 12) by (unfold in_int32; lia).
  assert (H3 : 0 <= 10) by lia.
  assert (H4 : 10 < 12) by lia.
  refine (conj H1 (conj H2 (conj H3 (conj H4 (conj eq_refl _))))).
  exact (proj1 (range_iteration_bounded 10 12 5 sample [1; 1; 7; 1; 8; 1; 9] 2
                  H1 H2 H3 H4 eq_refl)).
Defined.

Lemma frames_share_storage_witness :
  decoder sample = true /\ numel (cpuTensor sample) <> 0 /\ end_frame sample < 0
  /\ payload (deref (r_rd (next (r_rd (next sample [1; 7; 1; 8])) [1; 8])) RefCpu)
     = 8.
Proof.
  assert (H1 : numel (cpuTensor sample) <> 0) by (cbn; lia).
  assert (H2 : end_frame sample < 0) by (cbn; lia).
  refine (conj eq_refl (conj H1 (conj H2 _))).
  exact (proj2 (proj2 (proj2 (frames_share_storage sample 7 8 [] eq_refl H1 H2)))).
Defined.

Lemma ctor_logs_and_rethrows_witness :
  r_res (VideoReader_ctor "in.mp4" "tpu" "uint8" initial [])
  = Raise (InvalidArgument "Unsupported device: tpu")
  /\ exists evs,
      r_evs (VideoReader_ctor "in.mp4" "tpu" "uint8" initial [])
      = evs ++ [EvCerr ("Exception in VideoReader constructor: "
                        ++ what (InvalidArgument "Unsupported device: tpu"))%string].
Proof.
  exact (conj eq_refl
           (ctor_logs_and_rethrows "in.mp4" "tpu" "uint8" initial [] _ eq_refl)).
Defined.

Lemma ctor_validates_arguments_witness :
  "tpu" <> "cuda" /\ "tpu" <> "cpu"
  /\ r_res (VideoReader_ctor "in.mp4" "tpu" "uint8" initial [1; 1])
     = Raise (InvalidArgument "Unsupported device: tpu").
Proof.
  assert (H1 : "tpu" <> "cuda") by discriminate.
  assert (H2 : "tpu" <> "cpu") by discriminate.
  refine (conj H1 (conj H2 _)).
  exact (f_equal r_res
           (proj1 (ctor_validates_arguments "in.mp4" "tpu" "uint8" initial [1; 1])
                  H1 H2)).
Defined.

Lemma ctor_leaves_reader_witness :
  r_res (VideoReader_ctor "in.mp4" "cpu" "uint8" initial [1; 1; 4; 2; 100]) = Ret tt
  /\ decoder (r_rd (VideoReader_ctor "in.mp4" "cpu" "uint8" initial
                                     [1; 1; 4; 2; 100])) = true
  /\ numel (cpuTensor (r_rd (VideoReader_ctor "in.mp4" "cpu" "uint8" initial
                                              [1; 1; 4; 2; 100]))) = 24.
Proof.
  exact (conj eq_refl
           (conj (proj1 (ctor_leaves_reader "in.mp4" "cpu" "uint8" initial
                           [1; 1; 4; 2; 100] eq_refl))
                 eq_refl)).
Defined.

End ReaderFacts.
